(** * Research agent: executor, task store and start-up

  A shallow embedding of [research_agent.py], [research_task_manager.py]
  and [__main__.py].  Python strings are sequences of characters, dicts
  are finite maps, and code that mutates the manager or raises is written
  in a state-and-exception monad over an explicit [World]. *)

From Stdlib Require Import String Ascii List Bool Arith Lia.
From stdpp Require Import base option list gmap strings.

Local Open Scope string_scope.
Local Open Scope list_scope.

#[local] Arguments String.append !_ _ / : simpl nomatch.

(** ** Python string primitives used by the executor *)

Module PyStr.

(** The line feed ["\n"]. *)
Definition LF : ascii := "010"%char.

(** [str.isspace] on one character, for code points below 256: the
    ASCII controls TAB..CR and FS..US, the space, NEL and NBSP. *)
Definition isspace (c : ascii) : bool :=
  let n := nat_of_ascii c in
  (((9 <=? n) && (n <=? 13)) || ((28 <=? n) && (n <=? 32))
   || (n =? 133) || (n =? 160))%nat.

(** [s.lstrip()] *)
Fixpoint lstrip (s : string) : string :=
  match s with
  | EmptyString => EmptyString
  | String c s' => if isspace c then lstrip s' else s
  end.

(** [s.rstrip()] *)
Fixpoint rstrip (s : string) : string :=
  match s with
  | EmptyString => EmptyString
  | String c s' =>
      match rstrip s' with
      | EmptyString => if isspace c then EmptyString else String c EmptyString
      | r => String c r
      end
  end.

(** [s.strip()] *)
Definition strip (s : string) : string := rstrip (lstrip s).

(** Truth value of a string: [bool(s)]. *)
Definition truthy (s : string) : bool :=
  match s with EmptyString => false | String _ _ => true end.

(** [s[n:]] *)
Fixpoint drop (n : nat) (s : string) : string :=
  match n, s with
  | O, _ => s
  | S _, EmptyString => EmptyString
  | S n', String _ s' => drop n' s'
  end.

(** The text before and the text after the leftmost occurrence of a
    non-empty [sep] in [s]; [None] when [sep] does not occur. *)
Fixpoint split_once (sep s : string) : option (string * string) :=
  match s with
  | EmptyString =>
      if String.prefix sep EmptyString then Some (EmptyString, EmptyString) else None
  | String c s' =>
      if String.prefix sep s then Some (EmptyString, drop (String.length sep) s)
      else match split_once sep s' with
           | Some (a, b) => Some (String c a, b)
           | None => None
           end
  end.

(** [sep in s] *)
Definition contains (sep s : string) : bool :=
  match split_once sep s with Some _ => true | None => false end.

(** [s.split(sep, 1)] *)
Definition split_max1 (sep s : string) : list string :=
  match split_once sep s with
  | Some (a, b) => [a; b]
  | None => [s]
  end.

(** [s.split(c)] for a one-character separator [c]. *)
Fixpoint split_char (c : ascii) (s : string) : list string :=
  match s with
  | EmptyString => [EmptyString]
  | String a s' =>
      if Ascii.eqb a c then EmptyString :: split_char c s'
      else match split_char c s' with
           | h :: t => String a h :: t
           | [] => [String a EmptyString]
           end
  end.

(** [sep.join(l)] *)
Definition join (sep : string) (l : list string) : string := String.concat sep l.

End PyStr.


(** ** Exceptions, log records and the data model *)

(** The Python exception classes the code raises or can meet.
    [OtherException] stands for any further subclass of [Exception] that
    the external pipeline may raise. *)
Inductive ExcType :=
| ValueError | KeyError | IndexError | TypeError | ValidationError
| NotImplementedError | OtherException.

(** An exception object: its class and [str(e)]. *)
Record Exception := Exc { exc_type : ExcType; exc_str : string }.

Inductive LogLevel := INFO | WARNING | ERROR.

(** An argument of a %-style log call. *)
Inductive LogArg :=
| ArgStr (s : string)
| ArgList (l : list string)
| ArgNone.

(** One call of [logger.<level>(msg, *args)]. *)
Record LogRecord := Log { log_level : LogLevel; log_msg : string; log_args : list LogArg }.

(** Modelled from the spec: the protocol types of the [agent2agent]
    package ([agent2agent.types]), which is not part of the sources.  Only
    the fields the task manager reads or writes are kept. *)
Inductive TaskState :=
| SUBMITTED | WORKING | INPUT_REQUIRED | COMPLETED | CANCELED | FAILED | UNKNOWN.

Inductive Part :=
| TextPart (text : string)
| FilePart (file : string)
| DataPart (data : string).

Record Message := mkMessage { msg_role : string; msg_parts : list Part }.

Record TaskStatus := mkTaskStatus { ts_state : TaskState; ts_message : option Message }.

Record Artifact := mkArtifact { art_parts : list Part }.

Record Task := mkTask {
  t_id : string;
  t_sessionId : string;
  t_status : TaskStatus;
  t_artifacts : option (list Artifact)
}.

Record TaskSendParams := mkTaskSendParams {
  tsp_id : string;
  tsp_sessionId : string;
  tsp_message : Message;
  tsp_acceptedOutputModes : option (list string)
}.

(** [SendTaskRequest] and [SendTaskStreamingRequest] carry the same fields. *)
Record SendTaskRequest := mkSendTaskRequest { req_id : string; req_params : TaskSendParams }.

Inductive JSONRPCError :=
| ContentTypeNotSupportedError
| OtherRPCError (code : Z).

(** [SendTaskResponse] / [JSONRPCResponse]: a result or an error. *)
Record SendTaskResponse := mkResponse {
  resp_id : string;
  resp_result : option Task;
  resp_error : option JSONRPCError
}.

(** [ResearchResult] of [research_agent.py]: every field defaults to [None]. *)
Record ResearchResult := mkResearchResult {
  rr_id : option string;
  rr_content : option string;
  rr_sources : option (list string);
  rr_error : option string
}.

(** What one run of the external pipeline, [research_crew.kickoff(inputs)],
    does: it returns an output whose [raw] text is given, or it raises. *)
Inductive CrewOutcome :=
| Returns (raw : string)
| Raises (e : Exception).

(** [ResearchAgent]: the object state the executor reads. *)
Record ResearchAgent := mkAgent { research_crew : string -> CrewOutcome }.

(** [ResearchTaskManager]: the immutable part of [self].  The [agent] is set
    by [__init__]; [_validate_request] is looked up on [self] and is not
    defined in the sources, so it is a field here. *)
Record ResearchTaskManager := mkManager {
  agent : ResearchAgent;
  _validate_request : SendTaskRequest -> option SendTaskResponse
}.

(** The mutable state: the two dicts of the task manager, the log, the
    inputs the pipeline was run on so far, and the source of [uuid4().hex]
    values with the number of draws made. *)
Record World := mkWorld {
  tasks : gmap string Task;
  task_messages : gmap string (list Message);
  log : list LogRecord;
  kickoffs : list string;
  uuid_source : nat -> string;
  uuid_drawn : nat
}.

(** ** A state-and-exception monad

    A computation takes the world, and returns a value or raises, together
    with the world as it left it: what was mutated before a [raise] stays
    mutated. *)

Inductive Result (A : Type) :=
| Ok (a : A)
| Raise (e : Exception).
Arguments Ok {A} a.
Arguments Raise {A} e.

Definition M (A : Type) : Type := World -> Result A * World.

Definition ret {A} (a : A) : M A := fun w => (Ok a, w).

Definition raise {A} (e : Exception) : M A := fun w => (Raise e, w).

Definition bind {A B} (m : M A) (k : A -> M B) : M B :=
  fun w => match m w with
           | (Ok a, w') => k a w'
           | (Raise e, w') => (Raise e, w')
           end.

(** [try: m  except <classes> as e: h e] *)
Definition try_except {A} (m : M A) (catches : ExcType -> bool) (h : Exception -> M A) : M A :=
  fun w => match m w with
           | (Ok a, w') => (Ok a, w')
           | (Raise e, w') => if catches (exc_type e) then h e w' else (Raise e, w')
           end.

Notation "x <- m ;; k" := (bind m (fun x => k))
  (at level 100, m at next level, right associativity).
Notation "m ;; k" := (bind m (fun _ => k))
  (at level 100, right associativity).

(** [except Exception]: every class modelled here derives from [Exception]. *)
Definition any_Exception (_ : ExcType) : bool := true.

(** [except KeyError] *)
Definition only_KeyError (t : ExcType) : bool :=
  match t with KeyError => true | _ => false end.

(** ** Primitive effects *)

Definition set_tasks (f : gmap string Task -> gmap string Task) (w : World) : World :=
  mkWorld (f (tasks w)) (task_messages w) (log w) (kickoffs w) (uuid_source w) (uuid_drawn w).

Definition set_task_messages
  (f : gmap string (list Message) -> gmap string (list Message)) (w : World) : World :=
  mkWorld (tasks w) (f (task_messages w)) (log w) (kickoffs w) (uuid_source w) (uuid_drawn w).

Definition add_log (r : LogRecord) (w : World) : World :=
  mkWorld (tasks w) (task_messages w) (log w ++ [r]) (kickoffs w) (uuid_source w) (uuid_drawn w).

Definition add_kickoff (q : string) (w : World) : World :=
  mkWorld (tasks w) (task_messages w) (log w) (kickoffs w ++ [q]) (uuid_source w) (uuid_drawn w).

Definition draw_uuid (w : World) : World :=
  mkWorld (tasks w) (task_messages w) (log w) (kickoffs w) (uuid_source w) (S (uuid_drawn w)).

(** [logger.<level>(msg, *args)] *)
Definition logger (level : LogLevel) (msg : string) (args : list LogArg) : M unit :=
  fun w => (Ok tt, add_log (Log level msg args) w).

(** [uuid4().hex] *)
Definition uuid4_hex : M string :=
  fun w => (Ok (uuid_source w (uuid_drawn w)), draw_uuid w).

(** [self.tasks[task_id]] *)
Definition tasks_getitem (task_id : string) : M Task :=
  fun w => match tasks w !! task_id with
           | Some task => (Ok task, w)
           | None => (Raise (Exc KeyError task_id), w)
           end.

(** A write to an attribute of the task object that [self.tasks] holds
    under [task_id]: the dict and every other holder of the object see the
    new value. *)
Definition task_write (task_id : string) (task : Task) : M unit :=
  fun w => (Ok tt, set_tasks (insert task_id task) w).

(** [self.task_messages[task_id].append(m)] *)
Definition task_messages_append (task_id : string) (m : Message) : M unit :=
  fun w => match task_messages w !! task_id with
           | Some ms => (Ok tt, set_task_messages (insert task_id (ms ++ [m])) w)
           | None => (Raise (Exc KeyError task_id), w)
           end.

(** [self.research_crew.kickoff(inputs).raw] *)
Definition crew_kickoff (self : ResearchAgent) (research_query : string) : M string :=
  fun w => match research_crew self research_query with
           | Returns raw => (Ok raw, add_kickoff research_query w)
           | Raises e => (Raise e, add_kickoff research_query w)
           end.

Definition with_status (status : TaskStatus) (t : Task) : Task :=
  mkTask (t_id t) (t_sessionId t) status (t_artifacts t).

Definition with_artifacts (artifacts : option (list Artifact)) (t : Task) : Task :=
  mkTask (t_id t) (t_sessionId t) (t_status t) artifacts.

(** ** research_agent.py *)

(** [ResearchAgent.SUPPORTED_CONTENT_TYPES] *)
Definition SUPPORTED_CONTENT_TYPES : list string := ["text"; "text/plain"].

(** [a, b = l]: unpacking a list into two names. *)
Definition unpack2 (l : list string) : M (string * string) :=
  match l with
  | [a; b] => ret (a, b)
  | [] | [_] => raise (Exc ValueError "not enough values to unpack")
  | _ => raise (Exc ValueError "too many values to unpack")
  end.

(** The body of the [if "Sources:" in content] block of [invoke], with the
    defaults [content = response.raw] and [sources = []] around it. *)
Definition extract_sources (raw : string) : M (string * list string) :=
  let sources := [] in
  let content := raw in
  if PyStr.contains "Sources:" content then
    p <- unpack2 (PyStr.split_max1 "Sources:" content) ;;
    let (main_content, sources_section) := p in
    let content := PyStr.strip main_content in
    let sources :=
      map PyStr.strip
          (List.filter (fun s => PyStr.truthy (PyStr.strip s))
                  (PyStr.split_char PyStr.LF (PyStr.strip sources_section))) in
    ret (content, sources)
  else ret (content, sources).

(** [ResearchAgent.invoke] *)
Definition invoke (self : ResearchAgent) (query session_id : string) : M ResearchResult :=
  try_except
    (logger INFO ("Starting research on: " +:+ query) [] ;;
     raw <- crew_kickoff self query ;;
     p <- extract_sources raw ;;
     let (content, sources) := p in
     id <- uuid4_hex ;;
     ret (mkResearchResult (Some id) (Some content) (Some sources) None))
    any_Exception
    (fun e =>
       logger ERROR ("Error during research: " +:+ exc_str e) [] ;;
       id <- uuid4_hex ;;
       ret (mkResearchResult (Some id) None None
              (Some ("Error performing research: " +:+ exc_str e)))).

(** [ResearchAgent.stream] *)
Definition stream (self : ResearchAgent) (query : string) : M (list string) :=
  raise (Exc NotImplementedError "Streaming is not supported by CrewAI.").

(** ** The inherited task manager *)

(** Modelled from the spec: [utils.are_modalities_compatible] of the
    [agent2agent] package.  The supported content types are exactly the
    listed ones; a request whose accepted output modes name none of them
    is not compatible. *)
Definition are_modalities_compatible
  (accepted : option (list string)) (supported : list string) : bool :=
  match accepted with
  | Some modes => existsb (fun m => bool_decide (m ∈ supported)) modes
  | None => false
  end.

(** Modelled from the spec: [utils.new_incompatible_types_error] of the
    [agent2agent] package, the structured incompatible-modalities error. *)
Definition new_incompatible_types_error (request_id : string) : SendTaskResponse :=
  mkResponse request_id None (Some ContentTypeNotSupportedError).

(** Modelled from the spec: [InMemoryTaskManager.upsert_task] of the
    [agent2agent] package.  If no record exists for the identifier it
    creates one with status submitted and no artifacts, its message
    history seeded with the inbound message; if a record exists it appends
    the inbound message to the history. *)
Definition upsert_task (task_send_params : TaskSendParams) : M Task :=
  fun w =>
    let i := tsp_id task_send_params in
    match tasks w !! i with
    | None =>
        let task := mkTask i (tsp_sessionId task_send_params)
                      (mkTaskStatus SUBMITTED None) None in
        (Ok task,
         set_task_messages (insert i [tsp_message task_send_params])
           (set_tasks (insert i task) w))
    | Some task =>
        (Ok task,
         set_task_messages
           (insert i (default [] (task_messages w !! i) ++ [tsp_message task_send_params])) w)
    end.

(** ** research_task_manager.py *)

(** [ResearchTaskManager._stream_generator] *)
Definition _stream_generator (self : ResearchTaskManager) (request : SendTaskRequest)
  : M (list SendTaskResponse) :=
  raise (Exc NotImplementedError "Not implemented").

(** [ResearchTaskManager._update_store]; the body runs under [self.lock]
    (see [Concurrency] for the lock itself). *)
Definition _update_store
  (task_id : string) (status : TaskStatus) (artifacts : option (list Artifact)) : M Task :=
  task <- try_except (tasks_getitem task_id) only_KeyError
            (fun exc =>
               logger ERROR "Task %s not found for updating the task" [ArgStr task_id] ;;
               raise (Exc ValueError ("Task " +:+ task_id +:+ " not found"))) ;;
  let task := with_status status task in
  task_write task_id task ;;
  match ts_message status with
  | Some m => task_messages_append task_id m
  | None => ret tt
  end ;;
  match artifacts with
  | Some arts =>
      let task :=
        match t_artifacts task with
        | None => with_artifacts (Some []) task
        | Some _ => task
        end in
      let task := with_artifacts (Some (default [] (t_artifacts task) ++ arts)) task in
      task_write task_id task ;;
      ret task
  | None => ret task
  end.

(** [ResearchTaskManager._get_user_query] *)
Definition _get_user_query (task_send_params : TaskSendParams) : M string :=
  match msg_parts (tsp_message task_send_params) with
  | [] => raise (Exc IndexError "list index out of range")
  | TextPart text :: _ => ret text
  | _ :: _ => raise (Exc ValueError "Only text parts are supported")
  end.

(** Truth value of an optional string: [None] and [""] are false. *)
Definition truthy_opt (o : option string) : bool :=
  match o with Some s => PyStr.truthy s | None => false end.

(** The [parts] that [_invoke] builds from the executor's result. *)
Definition result_parts (result : ResearchResult) : M (list Part) :=
  if negb (truthy_opt (rr_error result)) then
    formatted_content <-
      match rr_sources result with
      | Some ((_ :: _) as sources) =>
          match rr_content result with
          | Some c =>
              ret (Some (c +:+ String PyStr.LF (String PyStr.LF "Sources:")
                           +:+ String PyStr.LF (PyStr.join (String PyStr.LF "") sources)))
          | None => raise (Exc TypeError "unsupported operand type(s) for +=")
          end
      | _ => ret (rr_content result)
      end ;;
    match formatted_content with
    | Some text => ret [TextPart text]
    | None => raise (Exc ValidationError "TextPart.text: none is not an allowed value")
    end
  else
    match rr_error result with
    | Some e => ret [TextPart e]
    | None => raise (Exc ValidationError "TextPart.text: none is not an allowed value")
    end.

(** [ResearchTaskManager._invoke] *)
Definition _invoke (self : ResearchTaskManager) (request : SendTaskRequest)
  : M SendTaskResponse :=
  let task_send_params := req_params request in
  query <- _get_user_query task_send_params ;;
  result <- try_except
              (invoke (agent self) query (tsp_sessionId task_send_params))
              any_Exception
              (fun e =>
                 logger ERROR "Error invoking agent: %s" [ArgStr (exc_str e)] ;;
                 raise (Exc ValueError ("Error invoking agent: " +:+ exc_str e))) ;;
  parts <- result_parts result ;;
  logger INFO ("Research completed with ID: " +:+ default "None" (rr_id result)) [] ;;
  task <- _update_store (tsp_id task_send_params)
            (mkTaskStatus COMPLETED None)
            (Some [mkArtifact parts]) ;;
  ret (mkResponse (req_id request) (Some task) None).

Definition modes_arg (o : option (list string)) : LogArg :=
  match o with Some l => ArgList l | None => ArgNone end.

(** [ResearchTaskManager.on_send_task] *)
Definition on_send_task (self : ResearchTaskManager) (request : SendTaskRequest)
  : M SendTaskResponse :=
  if negb (are_modalities_compatible
             (tsp_acceptedOutputModes (req_params request)) SUPPORTED_CONTENT_TYPES)
  then
    logger WARNING "Unsupported output mode. Received %s, Support %s"
      [modes_arg (tsp_acceptedOutputModes (req_params request));
       ArgList SUPPORTED_CONTENT_TYPES] ;;
    ret (new_incompatible_types_error (req_id request))
  else
    let task_send_params := req_params request in
    upsert_task task_send_params ;;
    _invoke self request.

(** What a handler hands back to the server: a structured response, a
    stream of responses, or nothing ([None], when the body falls off its
    end). *)
Inductive HandlerValue :=
| VResponse (r : SendTaskResponse)
| VStream (s : list SendTaskResponse)
| VNone.

(** [ResearchTaskManager.on_send_task_subscribe] *)
Definition on_send_task_subscribe (self : ResearchTaskManager) (request : SendTaskRequest)
  : M HandlerValue :=
  match _validate_request self request with
  | Some error => ret (VResponse error)
  | None =>
      upsert_task (req_params request) ;;
      ret VNone
  end.

(** [async for r in v]: iterating the value as a stream.  Only a stream
    has [__aiter__]; on anything else Python raises [TypeError]. *)
Definition async_for (v : HandlerValue) : M (list SendTaskResponse) :=
  match v with
  | VStream s => ret s
  | VResponse _ | VNone =>
      raise (Exc TypeError "'async for' requires an object with __aiter__ method")
  end.

(** ** __main__.py *)

(** The process environment after [load_dotenv()]. *)
Definition getenv (env : gmap string string) (name : string) : option string :=
  env !! name.

(** [get_api_key] of [research_agent.py] *)
Definition get_api_key (env : gmap string string) : option string :=
  getenv env "DASH_API_KEY".

(** How [main] ends: the process exits with a status, or [server.start()]
    is reached with an agent built on the given credentials. *)
Inductive Startup :=
| Exit (status : Z)
| ServerStarted (api_key base_url : option string) (host : string) (port : Z).

(** [main]: [construct] tells whether building the LLM, the agent, the
    crew, the card or the server (all external) raises on the given key and
    base URL.  Both [except] clauses end in [exit(1)]. *)
Definition main
  (construct : option string -> option string -> option Exception)
  (env : gmap string string) (host : string) (port : Z) : Startup :=
  if negb (truthy_opt (getenv env "GOOGLE_API_KEY")) then Exit 1
  else
    let api_key := get_api_key env in
    let base_url := getenv env "DASH_BASE_URL" in
    match construct api_key base_url with
    | Some _ => Exit 1
    | None => ServerStarted api_key base_url host port
    end.

(** ** Concurrent calls of [_update_store]

    Each call in flight is a task of the event loop.  Its body is cut at
    every statement, finer than the loop itself would switch, and the
    scheduler may run any task for one step at any time; [self.lock] is what
    keeps the bodies apart. *)

(** The arguments of one call [_update_store(task_id, status, artifacts)]. *)
Record Call := mkCall {
  c_task_id : string;
  c_status : TaskStatus;
  c_artifacts : option (list Artifact)
}.

(** Where a call stands: before [async with self.lock], at one of the
    statements of the body, leaving the [with] block with the value to
    return or the exception to raise, or finished. *)
Inductive Pc :=
| AtAcquire
| AtLookup
| AtStatus
| AtMessage
| AtArtifacts
| AtReturn
| AtRelease (r : Result Task)
| Finished (r : Result Task).

(** The lock is held at these points. *)
Definition in_body (pc : Pc) : bool :=
  match pc with
  | AtAcquire | Finished _ => false
  | _ => true
  end.

(** Run one statement: go where it says, or leave the block with the
    exception it raised. *)
Definition continue (m : M Pc) (w : World) : Pc * World :=
  match m w with
  | (Ok pc, w') => (pc, w')
  | (Raise e, w') => (AtRelease (Raise e), w')
  end.

(** One statement of the body of [_update_store].  The local name [task]
    refers to the object held by [self.tasks], so every statement reaches
    it through the dict. *)
Definition body_step (c : Call) (s : Pc * World) : Pc * World :=
  let task_id := c_task_id c in
  let status := c_status c in
  let artifacts := c_artifacts c in
  match fst s with
  | AtLookup =>
      continue
        (try_except (tasks_getitem task_id ;; ret AtStatus) only_KeyError
           (fun exc =>
              logger ERROR "Task %s not found for updating the task" [ArgStr task_id] ;;
              raise (Exc ValueError ("Task " +:+ task_id +:+ " not found"))))
        (snd s)
  | AtStatus =>
      continue
        (task <- tasks_getitem task_id ;;
         task_write task_id (with_status status task) ;;
         ret AtMessage)
        (snd s)
  | AtMessage =>
      continue
        (match ts_message status with
         | Some m => task_messages_append task_id m
         | None => ret tt
         end ;;
         ret AtArtifacts)
        (snd s)
  | AtArtifacts =>
      continue
        (match artifacts with
         | Some arts =>
             task <- tasks_getitem task_id ;;
             let task :=
               match t_artifacts task with
               | None => with_artifacts (Some []) task
               | Some _ => task
               end in
             task_write task_id
               (with_artifacts (Some (default [] (t_artifacts task) ++ arts)) task)
         | None => ret tt
         end ;;
         ret AtReturn)
        (snd s)
  | AtReturn =>
      continue (task <- tasks_getitem task_id ;; ret (AtRelease (Ok task))) (snd s)
  | AtAcquire | AtRelease _ | Finished _ => s
  end.

(** The manager with its lock, and the calls in flight. *)
Record Config := mkConfig {
  world : World;
  locked : bool;
  threads : list (Call * Pc)
}.

(** The scheduler runs call number [i] for one step.  A call waiting for
    a held lock, a finished call and a number out of range leave the
    configuration as it is. *)
Definition step (i : nat) (cfg : Config) : Config :=
  match threads cfg !! i with
  | None => cfg
  | Some (c, pc) =>
      match pc with
      | AtAcquire =>
          if locked cfg then cfg
          else mkConfig (world cfg) true (<[i := (c, AtLookup)]> (threads cfg))
      | AtRelease r =>
          mkConfig (world cfg) false (<[i := (c, Finished r)]> (threads cfg))
      | Finished _ => cfg
      | _ =>
          let s := body_step c (pc, world cfg) in
          mkConfig (snd s) (locked cfg) (<[i := (c, fst s)]> (threads cfg))
      end
  end.

(** A schedule: the call to run at each turn. *)
Definition run (schedule : list nat) (cfg : Config) : Config :=
  fold_left (fun cfg i => step i cfg) schedule cfg.

(** All calls about to start, the lock free. *)
Definition start (w : World) (calls : list Call) : Config :=
  mkConfig w false (map (fun c => (c, AtAcquire)) calls).

(** The world after one whole call, run alone. *)
Definition run_call (c : Call) (w : World) : World :=
  snd (_update_store (c_task_id c) (c_status c) (c_artifacts c) w).

(** The calls numbered [order], run one after the other. *)
Definition serial (calls : list Call) (order : list nat) (w : World) : World :=
  fold_left (fun w i => match calls !! i with Some c => run_call c w | None => w end)
            order w.

(** The record a successful call leaves for a task that was [t]. *)
Definition apply_call (t : Task) (c : Call) : Task :=
  mkTask (t_id t) (t_sessionId t) (c_status c)
    (match c_artifacts c with
     | Some arts => Some (default [] (t_artifacts t) ++ arts)
     | None => t_artifacts t
     end).

(** The calls numbered [order] that name the task [k], in that order. *)
Definition calls_on (k : string) (calls : list Call) (order : list nat) : list Call :=
  List.filter (fun c => bool_decide (c_task_id c = k))
              (omap (fun i => calls !! i) order).

(** Every task of the store has a message history. *)
Definition store_wf (w : World) : Prop :=
  forall k, is_Some (tasks w !! k) -> is_Some (task_messages w !! k).

(** The result of one whole call, run alone. *)
Definition call_result (c : Call) (w : World) : Result Task :=
  fst (_update_store (c_task_id c) (c_status c) (c_artifacts c) w).

(** The body of call [c] after [k] statements, entered in world [w]. *)
Definition body_after (c : Call) (k : nat) (w : World) : Pc * World :=
  Nat.iter k (body_step c) (AtLookup, w).

(** What a history of the scheduler amounts to.  [order] numbers the
    finished calls in the order they held the lock; [hold] is the call
    inside the body, if any, with the number of statements it ran. *)
Definition thread_ok (w0 : World) (calls : list Call) (order : list nat)
    (hold : option (nat * nat)) (i : nat) (c : Call) (pc : Pc) : Prop :=
  calls !! i = Some c /\
  match pc with
  | AtAcquire => (i ∉ order) /\ forall k, hold <> Some (i, k)
  | Finished r =>
      exists pre post,
        order = pre ++ i :: post /\ r = call_result c (serial calls pre w0)
  | _ =>
      (i ∉ order) /\
      exists k, hold = Some (i, k) /\ pc = fst (body_after c k (serial calls order w0))
  end.

Definition Inv (w0 : World) (calls : list Call) (cfg : Config)
    (order : list nat) (hold : option (nat * nat)) : Prop :=
  NoDup order /\
  (forall i c pc, threads cfg !! i = Some (c, pc) -> thread_ok w0 calls order hold i c pc) /\
  (forall i, i ∈ order -> exists c r, threads cfg !! i = Some (c, Finished r)) /\
  match hold with
  | None => locked cfg = false /\ world cfg = serial calls order w0
  | Some (j, k) =>
      locked cfg = true /\
      exists c, calls !! j = Some c /\
        threads cfg !! j = Some (c, fst (body_after c k (serial calls order w0))) /\
        world cfg = snd (body_after c k (serial calls order w0))
  end.

(** How many steps a call still needs at most. *)
Definition remaining (pc : Pc) : nat :=
  match pc with
  | AtAcquire => 7
  | AtLookup => 6
  | AtStatus => 5
  | AtMessage => 4
  | AtArtifacts => 3
  | AtReturn => 2
  | AtRelease _ => 1
  | Finished _ => 0
  end.

(** The artifacts that the calls [cs] append, in order. *)
Definition artifacts_of (cs : list Call) : list Artifact :=
  concat (map (fun c => default [] (c_artifacts c)) cs).

(** Two calls on two tasks, and a store that holds both tasks. *)
Definition call_a : Call :=
  mkCall "a" (mkTaskStatus COMPLETED None) (Some [mkArtifact [TextPart "for a"]]).

Definition call_b : Call :=
  mkCall "b" (mkTaskStatus FAILED None) (Some [mkArtifact [TextPart "for b"]]).

Definition two_tasks : World :=
  mkWorld
    {[ "a" := mkTask "a" "s" (mkTaskStatus SUBMITTED None) None;
       "b" := mkTask "b" "s" (mkTaskStatus SUBMITTED None) None ]}
    {[ "a" := []; "b" := [] ]} [] [] (fun _ => "") 0.

(** ** Vocabulary of the statements *)

(** Every character of [s] is white space. *)
Fixpoint all_space (s : string) : bool :=
  match s with
  | EmptyString => true
  | String c s' => PyStr.isspace c && all_space s'
  end.

(** [sep] occurs in [s] right after [pre], and nowhere further left. *)
Definition FirstOccurrence (sep s pre post : string) : Prop :=
  s = pre +:+ sep +:+ post /\
  forall pre' post', s = pre' +:+ sep +:+ post' -> String.length pre <= String.length pre'.

(** [sep] does not occur in [s]. *)
Definition NoOccurrence (sep s : string) : Prop :=
  forall pre post, s <> pre +:+ sep +:+ post.

(** The non-empty trimmed lines of a text, in order. *)
Definition nonempty_trimmed_lines (text : string) : list string :=
  List.filter PyStr.truthy (map PyStr.strip (PyStr.split_char PyStr.LF text)).

(** The raw output of the worked example:
    ["A B\nSources:\nhttp://x\nhttp://y"]. *)
Definition example_raw : string :=
  "A B" +:+ String PyStr.LF "Sources:" +:+ String PyStr.LF "http://x"
        +:+ String PyStr.LF "http://y".

(** The store holds a record for [task_id]: the task object and its
    message history. *)
Definition has_record (w : World) (task_id : string) : Prop :=
  is_Some (tasks w !! task_id) /\ is_Some (task_messages w !! task_id).

(** The manager right after [__init__]: both dicts empty, nothing logged,
    no pipeline run, no identifier drawn. *)
Definition initial_world (uuids : nat -> string) : World :=
  mkWorld ∅ ∅ [] [] uuids 0.

(** The world after [invoke] has logged, run the pipeline on [query] and
    drawn one identifier. *)
Definition after_invoke (query : string) (records : list LogRecord) (w : World) : World :=
  mkWorld (tasks w) (task_messages w) (log w ++ records) (kickoffs w ++ [query])
          (uuid_source w) (S (uuid_drawn w)).

(** The world [upsert_task] leaves. *)
Definition after_upsert (p : TaskSendParams) (w : World) : World :=
  snd (upsert_task p w).

(** The two operations on the store, and a history of them. *)
Inductive StoreOp :=
| OpUpsert (p : TaskSendParams)
| OpUpdate (task_id : string) (status : TaskStatus) (artifacts : option (list Artifact)).

Definition run_op (op : StoreOp) (w : World) : World :=
  match op with
  | OpUpsert p => after_upsert p w
  | OpUpdate task_id status artifacts => snd (_update_store task_id status artifacts w)
  end.

Definition run_ops (ops : list StoreOp) (w : World) : World :=
  fold_left (fun w op => run_op op w) ops w.

(** The identifier an operation upserts, if it is an upsert. *)
Definition upserts (op : StoreOp) : option string :=
  match op with
  | OpUpsert p => Some (tsp_id p)
  | OpUpdate _ _ _ => None
  end.

(** ** Concrete inputs for the examples *)

(** A source of identifiers that numbers its draws with one letter. *)
Definition example_uuids (n : nat) : string :=
  String (ascii_of_nat (97 + n)) "".

(** An agent whose pipeline answers every query with [example_raw]. *)
Definition example_agent : ResearchAgent := mkAgent (fun _ => Returns example_raw).

(** An agent whose pipeline fails on every query. *)
Definition failing_agent : ResearchAgent :=
  mkAgent (fun _ => Raises (Exc OtherException "connection refused")).

(** A text message from the user. *)
Definition example_message : Message := mkMessage "user" [TextPart "quantum computing"].

(** The task a first upsert of ["t1"] creates. *)
Definition example_task : Task := mkTask "t1" "session-1" (mkTaskStatus SUBMITTED None) None.

(** A store that holds the record of ["t1"] only. *)
Definition example_store : World :=
  mkWorld {[ "t1" := example_task ]} {[ "t1" := [example_message] ]} [] []
          example_uuids 0.

(** A manager over the failing agent, whose validation accepts every
    request. *)
Definition example_manager : ResearchTaskManager :=
  mkManager failing_agent (fun _ => None).

(** A text request for task ["t1"] from a client that accepts text. *)
Definition example_request : SendTaskRequest :=
  mkSendTaskRequest "req-1"
    (mkTaskSendParams "t1" "session-1" example_message (Some ["text"])).

(** The same request from a client that accepts images only. *)
Definition image_request : SendTaskRequest :=
  mkSendTaskRequest "req-2"
    (mkTaskSendParams "t1" "session-1" example_message (Some ["image/png"])).

(** A request whose first part is a file. *)
Definition file_request : SendTaskRequest :=
  mkSendTaskRequest "req-3"
    (mkTaskSendParams "t3" "session-1"
       (mkMessage "user" [FilePart "report.pdf"; TextPart "summarise"])
       (Some ["text/plain"])).

(** An environment with [GOOGLE_API_KEY] set and no [DASH_API_KEY]. *)
Definition env_without_llm_key : gmap string string :=
  {[ "GOOGLE_API_KEY" := "g" ]}.

(** An environment with the LLM key and base URL set and no
    [GOOGLE_API_KEY]. *)
Definition env_with_llm_key : gmap string string :=
  {[ "DASH_API_KEY" := "sk-1"; "DASH_BASE_URL" := "https://llm.example/v1" ]}.

(** ** Further vocabulary *)

(** [c in s] for one character [c]. *)
Fixpoint mem_char (c : ascii) (s : string) : bool :=
  match s with
  | EmptyString => false
  | String a s' => Ascii.eqb a c || mem_char c s'
  end.

(** A line as [invoke] keeps it among the sources: not empty, trimmed, and
    free of line feeds. *)
Definition source_line (s : string) : Prop :=
  PyStr.truthy s = true /\ PyStr.strip s = s /\ mem_char PyStr.LF s = false.

(** The text [_invoke] sends for a result without error: the content,
    followed by the sources under their heading when there are any. *)
Definition artifact_text (content : string) (sources : list string) : string :=
  match sources with
  | [] => content
  | _ :: _ =>
      content +:+ String PyStr.LF (String PyStr.LF "Sources:")
              +:+ String PyStr.LF (PyStr.join (String PyStr.LF "") sources)
  end.

(** The first character of [s] is white space. *)
Definition head_space (s : string) : bool :=
  match s with
  | EmptyString => false
  | String c _ => PyStr.isspace c
  end.

(** No call is inside the body. *)
Definition quiet (cfg : Config) : Prop :=
  forall i c pc, threads cfg !! i = Some (c, pc) -> in_body pc = false.

(** Every call has finished. *)
Definition all_finished (cfg : Config) : Prop :=
  forall i c pc, threads cfg !! i = Some (c, pc) -> exists r, pc = Finished r.

(** Each call in turn, run for as many steps as a call can need. *)
Definition drain (n : nat) : list nat :=
  concat (map (fun i => repeat i 7) (seq 0 n)).

(** ** Facts about the string primitives *)

Section StringFacts.

Import PyStr.

Lemma append_nil_r (s : string) : s +:+ "" = s.
Proof. induction s as [|c s IH]; simpl; congruence. Qed.

Lemma append_assoc (a b c : string) : (a +:+ b) +:+ c = a +:+ (b +:+ c).
Proof. induction a as [|x a IH]; simpl; congruence. Qed.

Lemma append_length (a b : string) :
  String.length (a +:+ b) = (String.length a + String.length b)%nat.
Proof. induction a as [|x a IH]; simpl; congruence. Qed.

Lemma append_inj_length (a a' b b' : string) :
  a +:+ b = a' +:+ b' -> String.length a = String.length a' -> a = a' /\ b = b'.
Proof.
  revert a'. induction a as [|x a IH]; intros [|y a'] E L; simpl in *; try discriminate.
  - auto.
  - injection E as -> E. injection L as L.
    destruct (IH _ E L) as [-> ->]. auto.
Qed.

Lemma prefix_spec (p s : string) :
  String.prefix p s = true <-> exists r, s = p +:+ r.
Proof.
  revert p. induction s as [|b s IH]; intros [|a p]; simpl.
  - split; [by exists "" | done].
  - split; [discriminate | intros [r Hr]; discriminate].
  - split; [by exists (String b s) | done].
  - destruct (Ascii.ascii_dec a b) as [->|Hne].
    + rewrite IH. split; intros [r Hr]; exists r; congruence.
    + split; [discriminate | intros [r Hr]; congruence].
Qed.

Lemma drop_append (p r : string) : drop (String.length p) (p +:+ r) = r.
Proof. induction p as [|a p IH]; simpl; [by destruct r | done]. Qed.


#[local] Arguments String.prefix : simpl never.

Lemma split_once_Some (sep s a b : string) :
  split_once sep s = Some (a, b) -> FirstOccurrence sep s a b.
Proof.
  revert a b. induction s as [|c s IH]; intros a b; simpl.
  - destruct (String.prefix sep "") eqn:P; [|done].
    intros [= <- <-]. apply prefix_spec in P as [r Hr].
    destruct sep; [|simpl in Hr; discriminate]. split; [done | intros; simpl; lia].
  - destruct (String.prefix sep (String c s)) eqn:P.
    + intros [= <- <-]. apply prefix_spec in P as [r Hr].
      split; [|intros; simpl; lia].
      simpl. rewrite Hr at 2. by rewrite drop_append.
    + destruct (split_once sep s) as [[a' b']|] eqn:E; [|done].
      intros [= <- <-]. destruct (IH _ _ eq_refl) as [Hs Hmin].
      split; [simpl; congruence|].
      intros [|c' pre'] post' Hpre; simpl in Hpre.
      * assert (String.prefix sep (String c s) = true) by (apply prefix_spec; eauto).
        congruence.
      * injection Hpre as <- Hpre. apply Hmin in Hpre. simpl. lia.
Qed.

Lemma split_once_None (sep s : string) :
  split_once sep s = None -> NoOccurrence sep s.
Proof.
  induction s as [|c s IH]; simpl.
  - destruct (String.prefix sep "") eqn:P; [done|].
    intros _ [|c pre] post Hpre; [|done].
    assert (String.prefix sep "" = true) by (apply prefix_spec; eauto). congruence.
  - destruct (String.prefix sep (String c s)) eqn:P; [done|].
    destruct (split_once sep s) as [[a' b']|] eqn:E; [done|].
    intros _ [|c' pre] post Hpre; simpl in Hpre.
    + assert (String.prefix sep (String c s) = true) by (apply prefix_spec; eauto).
      congruence.
    + injection Hpre as <- Hpre. by apply (IH eq_refl pre post).
Qed.

Lemma first_occurrence_unique (sep s a b a' b' : string) :
  FirstOccurrence sep s a b -> FirstOccurrence sep s a' b' -> a = a' /\ b = b'.
Proof.
  intros [E1 M1] [E2 M2].
  assert (String.length a = String.length a') as L.
  { apply Nat.le_antisymm; [by apply (M1 a' b') | by apply (M2 a b)]. }
  rewrite E1 in E2. destruct (append_inj_length _ _ _ _ E2 L) as [-> E3].
  split; [done|].
  by destruct (append_inj_length _ _ _ _ E3 eq_refl).
Qed.

Lemma split_once_first (sep s pre post : string) :
  FirstOccurrence sep s pre post -> split_once sep s = Some (pre, post).
Proof.
  intros F. destruct (split_once sep s) as [[a b]|] eqn:E.
  - apply split_once_Some in E.
    by destruct (first_occurrence_unique _ _ _ _ _ _ E F) as [-> ->].
  - apply split_once_None in E. destruct F as [F _]. by destruct (E pre post).
Qed.

Lemma contains_false (sep s : string) :
  NoOccurrence sep s -> contains sep s = false.
Proof.
  intros N. unfold contains. destruct (split_once sep s) as [[a b]|] eqn:E; [|done].
  apply split_once_Some in E as [E _]. by destruct (N a b).
Qed.

Lemma occurrence_cases (sep s : string) :
  (exists pre post, FirstOccurrence sep s pre post) \/ NoOccurrence sep s.
Proof.
  destruct (split_once sep s) as [[a b]|] eqn:E.
  - left. exists a, b. by apply split_once_Some.
  - right. by apply split_once_None.
Qed.


(** *** Lines and white space *)

Lemma split_char_cons (c : ascii) (s : string) :
  exists h t, split_char c s = h :: t.
Proof.
  destruct s as [|a s]; simpl; [eauto|].
  destruct (Ascii.eqb a c); [eauto|]. destruct (split_char c s); eauto.
Qed.

(** Splitting a concatenation: the last piece of the left text and the
    first piece of the right text are glued. *)
Lemma split_char_append (c : ascii) (s : string) :
  exists i l, split_char c s = i ++ [l] /\
    forall u hu tu, split_char c u = hu :: tu ->
      split_char c (s +:+ u) = i ++ (l +:+ hu) :: tu.
Proof.
  induction s as [|a s (i & l & Hs & Hu)]; simpl.
  - exists [], "". split; [done|]. intros u hu tu ->. done.
  - destruct (Ascii.eqb a c).
    + exists ("" :: i), l. split; [by rewrite Hs|].
      intros u hu tu E. by rewrite (Hu _ _ _ E).
    + rewrite Hs. destruct i as [|h i]; simpl.
      * exists [], (String a l). split; [done|].
        intros u hu tu E. by rewrite (Hu _ _ _ E).
      * exists (String a h :: i), l. split; [done|].
        intros u hu tu E. by rewrite (Hu _ _ _ E).
Qed.

Lemma lstrip_all_space (ws : string) : all_space ws = true -> lstrip ws = "".
Proof.
  induction ws as [|c ws IH]; simpl; [done|].
  intros [Hc Hws]%andb_true_iff. rewrite Hc. auto.
Qed.

Lemma rstrip_all_space (ws : string) : all_space ws = true -> rstrip ws = "".
Proof.
  induction ws as [|c ws IH]; simpl; [done|].
  intros [Hc Hws]%andb_true_iff. by rewrite (IH Hws), Hc.
Qed.

Lemma strip_all_space (ws : string) : all_space ws = true -> strip ws = "".
Proof. intros H. unfold strip. by rewrite lstrip_all_space. Qed.

Lemma lstrip_append_l (ws x : string) :
  all_space ws = true -> lstrip (ws +:+ x) = lstrip x.
Proof.
  induction ws as [|c ws IH]; simpl; [done|].
  intros [Hc Hws]%andb_true_iff. rewrite Hc. auto.
Qed.

Lemma rstrip_append_r (x ws : string) :
  all_space ws = true -> rstrip (x +:+ ws) = rstrip x.
Proof.
  intros H. induction x as [|c x IH]; simpl; [by apply rstrip_all_space|].
  by rewrite IH.
Qed.

Lemma lstrip_append_r (x u : string) :
  lstrip (x +:+ u) = match lstrip x with "" => lstrip u | y => y +:+ u end.
Proof.
  induction x as [|c x IH]; simpl; [done|].
  destruct (isspace c); [done|]. done.
Qed.

Lemma strip_append_l (ws x : string) :
  all_space ws = true -> strip (ws +:+ x) = strip x.
Proof. intros H. unfold strip. by rewrite lstrip_append_l. Qed.

Lemma strip_append_r (x ws : string) :
  all_space ws = true -> strip (x +:+ ws) = strip x.
Proof.
  intros H. unfold strip. rewrite lstrip_append_r.
  destruct (lstrip x) eqn:E.
  - by rewrite lstrip_all_space.
  - by rewrite rstrip_append_r.
Qed.

Lemma lstrip_decomp (s : string) :
  exists ws, all_space ws = true /\ s = ws +:+ lstrip s.
Proof.
  induction s as [|c s (ws & Hws & Hs)]; simpl.
  - by exists "".
  - destruct (isspace c) eqn:Hc.
    + exists (String c ws). simpl. rewrite Hc, Hws. split; [done|congruence].
    + by exists "".
Qed.

Lemma rstrip_decomp (s : string) :
  exists ws, all_space ws = true /\ s = rstrip s +:+ ws.
Proof.
  induction s as [|c s (ws & Hws & Hs)]; simpl.
  - by exists "".
  - destruct (rstrip s) eqn:E.
    + destruct (isspace c) eqn:Hc.
      * exists (String c ws). simpl in *. rewrite Hc, Hws. split; [done|congruence].
      * exists ws. simpl in *. split; [done|congruence].
    + exists ws. simpl in *. split; [done|congruence].
Qed.

Lemma split_char_all_space (ws : string) :
  all_space ws = true ->
  Forall (fun x => all_space x = true) (split_char LF ws).
Proof.
  induction ws as [|c ws IH]; simpl.
  - intros _. by repeat constructor.
  - intros [Hc Hws]%andb_true_iff. specialize (IH Hws).
    destruct (Ascii.eqb c LF).
    + by constructor.
    + destruct (split_char LF ws) as [|h t]; [by repeat constructor; simpl; rewrite Hc|].
      inversion IH; subst. constructor; [|done]. simpl. by rewrite Hc.
Qed.

Lemma trimmed_all_space (l : list string) :
  Forall (fun x => all_space x = true) l ->
  List.filter truthy (map strip l) = [].
Proof.
  induction 1 as [|x l Hx _ IH]; simpl; [done|].
  by rewrite (strip_all_space _ Hx).
Qed.


Lemma filter_truthy_app (l1 l2 : list string) :
  List.filter truthy (map strip (l1 ++ l2)) =
  List.filter truthy (map strip l1) ++ List.filter truthy (map strip l2).
Proof. by rewrite map_app, List.filter_app. Qed.

Lemma nonempty_trimmed_lines_append_l (ws s : string) :
  all_space ws = true ->
  nonempty_trimmed_lines (ws +:+ s) = nonempty_trimmed_lines s.
Proof.
  intros H. unfold nonempty_trimmed_lines.
  destruct (split_char_append LF ws) as (i & l & Hws & Hu).
  destruct (split_char_cons LF s) as (hs & ts & Es).
  rewrite (Hu _ _ _ Es), Es.
  apply split_char_all_space in H. rewrite Hws in H.
  apply Forall_app in H as [Hi Hl]. inversion Hl; subst.
  rewrite filter_truthy_app, (trimmed_all_space _ Hi). simpl.
  by rewrite strip_append_l.
Qed.

Lemma nonempty_trimmed_lines_append_r (s ws : string) :
  all_space ws = true ->
  nonempty_trimmed_lines (s +:+ ws) = nonempty_trimmed_lines s.
Proof.
  intros H. unfold nonempty_trimmed_lines.
  destruct (split_char_append LF s) as (i & l & Hs & Hu).
  destruct (split_char_cons LF ws) as (hu & tu & Eu).
  rewrite (Hu _ _ _ Eu), Hs.
  apply split_char_all_space in H. rewrite Eu in H. inversion H; subst.
  rewrite !filter_truthy_app. f_equal. simpl.
  rewrite strip_append_r by done.
  by rewrite (trimmed_all_space tu).
Qed.

(** Trimming the whole text first does not change its non-empty trimmed
    lines. *)
Lemma nonempty_trimmed_lines_strip (s : string) :
  nonempty_trimmed_lines (strip s) = nonempty_trimmed_lines s.
Proof.
  unfold strip.
  destruct (lstrip_decomp s) as (ws1 & H1 & E1).
  destruct (rstrip_decomp (lstrip s)) as (ws2 & H2 & E2).
  rewrite E1 at 2. rewrite nonempty_trimmed_lines_append_l by done.
  rewrite E2 at 2. by rewrite nonempty_trimmed_lines_append_r.
Qed.

(** The list comprehension of [invoke] keeps the non-empty trimmed
    lines. *)
Lemma comprehension_trimmed (l : list string) :
  map strip (List.filter (fun s => truthy (strip s)) l) =
  List.filter truthy (map strip l).
Proof.
  induction l as [|x l IH]; simpl; [done|].
  destruct (truthy (strip x)); simpl; by rewrite IH.
Qed.

End StringFacts.

(** ** The executor *)

Section Executor.

Import PyStr.

Lemma extract_sources_marker (raw pre post : string) (w : World) :
  FirstOccurrence "Sources:" raw pre post ->
  extract_sources raw w = (Ok (strip pre, nonempty_trimmed_lines post), w).
Proof.
  intros F. apply split_once_first in F.
  unfold extract_sources, contains, split_max1. rewrite F. unfold bind; simpl.
  unfold ret. do 2 f_equal. f_equal.
  rewrite comprehension_trimmed. apply nonempty_trimmed_lines_strip.
Qed.

Lemma extract_sources_no_marker (raw : string) (w : World) :
  NoOccurrence "Sources:" raw -> extract_sources raw w = (Ok (raw, []), w).
Proof.
  intros N. unfold extract_sources. by rewrite (contains_false _ _ N).
Qed.

Lemma extract_sources_total (raw : string) (w : World) :
  exists p, extract_sources raw w = (Ok p, w).
Proof.
  destruct (occurrence_cases "Sources:" raw) as [(pre & post & F)|N].
  - rewrite (extract_sources_marker _ _ _ _ F). eauto.
  - rewrite (extract_sources_no_marker _ _ N). eauto.
Qed.

(** [invoke] when the pipeline returns. *)
Lemma invoke_returns (self : ResearchAgent) (query session_id raw : string)
    (content : string) (sources : list string) (w : World) :
  research_crew self query = Returns raw ->
  (forall w', extract_sources raw w' = (Ok (content, sources), w')) ->
  invoke self query session_id w =
    (Ok (mkResearchResult (Some (uuid_source w (uuid_drawn w)))
           (Some content) (Some sources) None),
     after_invoke query [Log INFO ("Starting research on: " +:+ query) []] w).
Proof.
  intros Hc He. unfold invoke, try_except, bind, logger, crew_kickoff. simpl.
  rewrite Hc, He. done.
Qed.

(** [invoke] when the pipeline raises. *)
Lemma invoke_raises (self : ResearchAgent) (query session_id : string)
    (e : Exception) (w : World) :
  research_crew self query = Raises e ->
  invoke self query session_id w =
    (Ok (mkResearchResult (Some (uuid_source w (uuid_drawn w))) None None
           (Some ("Error performing research: " +:+ exc_str e))),
     after_invoke query
       [Log INFO ("Starting research on: " +:+ query) [];
        Log ERROR ("Error during research: " +:+ exc_str e) []] w).
Proof.
  intros Hc. unfold invoke, try_except, bind, logger, crew_kickoff. simpl.
  rewrite Hc. simpl. unfold after_invoke, add_log, add_kickoff, draw_uuid. simpl.
  by rewrite <- app_assoc.
Qed.


Lemma example_first_occurrence :
  FirstOccurrence "Sources:" example_raw
    (String "A" (String " " (String "B" (String LF ""))))
    (String LF "http://x" +:+ String LF "http://y").
Proof. by apply split_once_Some. Qed.

(** C3: [invoke] partitions the raw output at the first occurrence of
    ["Sources:"].  The trimmed text before the marker is the content and
    the non-empty trimmed lines after it are the sources, in order; without
    the marker the content is the whole raw text and there are no sources.
    On the worked example the content is ["A B"] and the sources are
    [http://x] and [http://y]. *)
Theorem invoke_partitions_at_sources_marker
    (self : ResearchAgent) (query session_id raw : string) (w : World) :
  research_crew self query = Returns raw ->
  exists (content : string) (sources : list string) (w' : World),
    invoke self query session_id w =
      (Ok (mkResearchResult (Some (uuid_source w (uuid_drawn w)))
             (Some content) (Some sources) None), w') /\
    ((exists pre post, FirstOccurrence "Sources:" raw pre post)
     \/ NoOccurrence "Sources:" raw) /\
    (forall pre post, FirstOccurrence "Sources:" raw pre post ->
       content = strip pre /\ sources = nonempty_trimmed_lines post) /\
    (NoOccurrence "Sources:" raw -> content = raw /\ sources = []) /\
    (raw = example_raw -> content = "A B" /\ sources = ["http://x"; "http://y"]).
Proof.
  intros Hc.
  assert (forall pre post, FirstOccurrence "Sources:" raw pre post ->
            NoOccurrence "Sources:" raw -> False) as Hexcl.
  { intros pre post [E _] N. by apply (N pre post). }
  destruct (occurrence_cases "Sources:" raw) as [(pre & post & F)|N].
  - exists (strip pre), (nonempty_trimmed_lines post). eexists.
    split; [|split; [eauto|split; [|split]]].
    + apply (invoke_returns _ _ _ raw); [done|].
      intros w'. by apply extract_sources_marker.
    + intros pre' post' F'.
      by destruct (first_occurrence_unique _ _ _ _ _ _ F F') as [-> ->].
    + intros N. destruct (Hexcl _ _ F N).
    + intros ->.
      by destruct (first_occurrence_unique _ _ _ _ _ _ F example_first_occurrence)
        as [-> ->].
  - exists raw, []. eexists.
    split; [|split; [eauto|split; [|split]]].
    + apply (invoke_returns _ _ _ raw); [done|].
      intros w'. by apply extract_sources_no_marker.
    + intros pre post F. destruct (Hexcl _ _ F N).
    + done.
    + intros ->. destruct (Hexcl _ _ example_first_occurrence N).
Qed.

Lemma invoke_partitions_witness :
  exists (w' : World),
    invoke example_agent "quantum computing" "session-1" (initial_world example_uuids) =
      (Ok (mkResearchResult (Some "a") (Some "A B")
             (Some ["http://x"; "http://y"]) None), w').
Proof.
  destruct (invoke_partitions_at_sources_marker example_agent
              "quantum computing" "session-1" example_raw
              (initial_world example_uuids) eq_refl)
    as (content & sources & w' & H & _ & _ & _ & Hex).
  destruct (Hex eq_refl) as [-> ->]. exists w'. exact H.
Defined.

(** C4: [invoke] always returns a [ResearchResult] and never raises.  When
    the pipeline returns, content and sources are set and error is unset;
    when the pipeline raises, error is set and content and sources are
    unset.  So exactly one of content and error is set. *)
Theorem invoke_returns_content_or_error
    (self : ResearchAgent) (query session_id : string) (w : World) :
  exists (r : ResearchResult) (w' : World),
    invoke self query session_id w = (Ok r, w') /\
    (is_Some (rr_content r) <-> rr_error r = None) /\
    ((exists raw, research_crew self query = Returns raw /\
        is_Some (rr_content r) /\ is_Some (rr_sources r) /\ rr_error r = None)
     \/
     (exists e, research_crew self query = Raises e /\
        rr_error r = Some ("Error performing research: " +:+ exc_str e) /\
        rr_content r = None /\ rr_sources r = None)).
Proof.
  destruct (research_crew self query) as [raw|e] eqn:Hc.
  - destruct (extract_sources_total raw w) as [[content sources] He].
    eexists. eexists. split.
    + apply (invoke_returns _ _ _ raw content sources); [done|].
      intros w'. destruct (extract_sources_total raw w') as [p Hp].
      rewrite Hp. f_equal. f_equal.
      destruct (occurrence_cases "Sources:" raw) as [(pre & post & F)|N].
      * rewrite (extract_sources_marker _ _ _ w F) in He.
        rewrite (extract_sources_marker _ _ _ w' F) in Hp. congruence.
      * rewrite (extract_sources_no_marker _ w N) in He.
        rewrite (extract_sources_no_marker _ w' N) in Hp. congruence.
    + simpl. split; [split; eauto|]. left. exists raw. eauto.
  - eexists. eexists. split; [by apply invoke_raises|]. simpl.
    split; [split; [by intros [? ?]|done]|]. right. exists e. eauto.
Qed.

End Executor.

(** ** The task store *)

Section TaskStore.

Lemma update_store_found
    (task_id : string) (status : TaskStatus) (artifacts : option (list Artifact))
    (w : World) (t : Task) :
  tasks w !! task_id = Some t ->
  _update_store task_id status artifacts w =
    (match ts_message status with
     | Some m => task_messages_append task_id m
     | None => ret tt
     end ;;
     match artifacts with
     | Some arts =>
         let task := with_artifacts
                       (Some (default [] (t_artifacts t) ++ arts))
                       (with_status status t) in
         task_write task_id task ;; ret task
     | None => ret (with_status status t)
     end) (set_tasks (insert task_id (with_status status t)) w).
Proof.
  intros Ht. unfold _update_store at 1, bind at 1, try_except, tasks_getitem.
  rewrite Ht. unfold bind at 1, task_write at 1.
  destruct artifacts as [arts|]; [|done].
  destruct t as [i sid st [a|]]; reflexivity.
Qed.

(** [_update_store] on a task that has a record. *)
Lemma update_store_present
    (task_id : string) (status : TaskStatus) (artifacts : option (list Artifact))
    (w : World) (t : Task) (ms : list Message) :
  tasks w !! task_id = Some t ->
  task_messages w !! task_id = Some ms ->
  let t' := mkTask (t_id t) (t_sessionId t) status
              match artifacts with
              | Some arts => Some (default [] (t_artifacts t) ++ arts)
              | None => t_artifacts t
              end in
  exists (w' : World),
    _update_store task_id status artifacts w = (Ok t', w') /\
    tasks w' = <[task_id := t']> (tasks w) /\
    task_messages w' =
      <[task_id := ms ++ option_list (ts_message status)]> (task_messages w) /\
    log w' = log w /\ kickoffs w' = kickoffs w /\ uuid_drawn w' = uuid_drawn w.
Proof.
  intros Ht Hms. rewrite (update_store_found _ _ _ _ _ Ht).
  unfold bind, task_messages_append, task_write, ret.
  destruct (ts_message status) as [m|] eqn:Hm; simpl; rewrite ?Hms;
    destruct artifacts as [arts|]; simpl;
    eexists; (split; [reflexivity|]); simpl;
    rewrite ?insert_insert_eq, ?app_nil_r, ?(insert_id _ _ _ Hms); done.
Qed.

(** C1: for a task identifier that the store holds, [_update_store]
    replaces the status, appends the message of the new status (if any) to
    the message history of the task, appends the given artifacts (if any)
    to the artifact list, starting it when it is absent, and returns the
    updated record, which is the one the store now holds.  The message
    history is a second dict, read only when the status carries a
    message. *)
Theorem update_store_updates_record
    (task_id : string) (status : TaskStatus) (artifacts : option (list Artifact))
    (w : World) (t : Task) :
  tasks w !! task_id = Some t ->
  (is_Some (ts_message status) -> is_Some (task_messages w !! task_id)) ->
  exists (t' : Task) (w' : World),
    _update_store task_id status artifacts w = (Ok t', w') /\
    tasks w' = <[task_id := t']> (tasks w) /\
    t_status t' = status /\
    task_messages w' =
      match ts_message status with
      | Some m =>
          <[task_id := default [] (task_messages w !! task_id) ++ [m]]> (task_messages w)
      | None => task_messages w
      end /\
    t_artifacts t' =
      match artifacts with
      | Some arts => Some (default [] (t_artifacts t) ++ arts)
      | None => t_artifacts t
      end /\
    t_id t' = t_id t /\ t_sessionId t' = t_sessionId t /\
    log w' = log w /\ kickoffs w' = kickoffs w /\ uuid_drawn w' = uuid_drawn w.
Proof.
  intros Ht Hms.
  destruct (ts_message status) as [m|] eqn:Hm.
  - destruct Hms as [ms Hms]; [by eexists|].
    destruct (update_store_present task_id status artifacts w t ms Ht Hms)
      as (w' & H & Htasks & Hmsgs & Hrest).
    eexists. exists w'. split; [exact H|]. rewrite Hm in Hmsgs. rewrite Hms.
    simpl. tauto.
  - rewrite (update_store_found _ _ _ _ _ Ht). rewrite Hm.
    unfold bind, task_write, ret.
    destruct artifacts as [arts|]; simpl;
      eexists; eexists; (split; [reflexivity|]); simpl;
      rewrite ?insert_insert_eq; done.
Qed.

Lemma update_store_updates_record_witness :
  exists (t' : Task) (w' : World),
    _update_store "t1" (mkTaskStatus COMPLETED None)
      (Some [mkArtifact [TextPart "done"]]) (example_store) = (Ok t', w') /\
    t_status t' = mkTaskStatus COMPLETED None /\
    t_artifacts t' = Some [mkArtifact [TextPart "done"]] /\
    tasks w' !! "t1" = Some t'.
Proof.
  destruct (update_store_updates_record "t1" (mkTaskStatus COMPLETED None)
              (Some [mkArtifact [TextPart "done"]]) example_store
              example_task eq_refl)
    as (t' & w' & H & Ht & Hs & _ & Ha & _).
  { by intros [m Hm]. }
  exists t', w'. repeat split; try done.
  by rewrite Ht, lookup_insert_eq.
Defined.


(** [_update_store] on an identifier that [self.tasks] does not hold. *)
Lemma update_store_absent
    (task_id : string) (status : TaskStatus) (artifacts : option (list Artifact))
    (w : World) :
  tasks w !! task_id = None ->
  _update_store task_id status artifacts w =
    (Raise (Exc ValueError ("Task " +:+ task_id +:+ " not found")),
     add_log (Log ERROR "Task %s not found for updating the task" [ArgStr task_id]) w).
Proof.
  intros Ht. unfold _update_store, bind, try_except, tasks_getitem.
  by rewrite Ht.
Qed.

(** C2: on a task identifier with no record, [_update_store] raises
    [ValueError] "Task ... not found"; it creates no record for the
    identifier and leaves every task, message history and artifact list as
    it was.  The only trace is the logged error. *)
Theorem update_store_unknown_task
    (task_id : string) (status : TaskStatus) (artifacts : option (list Artifact))
    (w : World) :
  tasks w !! task_id = None ->
  exists (w' : World),
    _update_store task_id status artifacts w =
      (Raise (Exc ValueError ("Task " +:+ task_id +:+ " not found")), w') /\
    tasks w' = tasks w /\
    task_messages w' = task_messages w /\
    tasks w' !! task_id = None /\
    log w' = log w ++ [Log ERROR "Task %s not found for updating the task"
                         [ArgStr task_id]] /\
    kickoffs w' = kickoffs w /\ uuid_drawn w' = uuid_drawn w.
Proof.
  intros Ht. rewrite (update_store_absent _ _ _ _ Ht).
  eexists. split; [reflexivity|]. by simpl.
Qed.

Lemma update_store_unknown_task_witness :
  exists (w' : World),
    _update_store "t2" (mkTaskStatus COMPLETED None)
      (Some [mkArtifact [TextPart "done"]]) example_store =
      (Raise (Exc ValueError "Task t2 not found"), w') /\
    tasks w' = tasks example_store /\
    task_messages w' = task_messages example_store.
Proof.
  destruct (update_store_unknown_task "t2" (mkTaskStatus COMPLETED None)
              (Some [mkArtifact [TextPart "done"]]) example_store eq_refl)
    as (w' & H & Ht & Hm & _).
  exists w'. done.
Defined.

(** When the status carries a message and the task has no message history,
    the append raises [KeyError] after the status was written. *)
Lemma update_store_without_history
    (task_id : string) (status : TaskStatus) (artifacts : option (list Artifact))
    (w : World) (t : Task) (m : Message) :
  tasks w !! task_id = Some t ->
  ts_message status = Some m ->
  task_messages w !! task_id = None ->
  _update_store task_id status artifacts w =
    (Raise (Exc KeyError task_id),
     set_tasks (insert task_id (with_status status t)) w).
Proof.
  intros Ht Hm Hms. rewrite (update_store_found _ _ _ _ _ Ht), Hm.
  unfold bind, task_messages_append. simpl. by rewrite Hms.
Qed.

(** *** Which identifiers have a record *)

Lemma upsert_task_tasks (p : TaskSendParams) (w : World) (k : string) :
  k <> tsp_id p -> tasks (after_upsert p w) !! k = tasks w !! k.
Proof.
  intros Hk. unfold after_upsert, upsert_task.
  destruct (tasks w !! tsp_id p); simpl; [done|].
  by rewrite lookup_insert_ne.
Qed.

Lemma upsert_task_registers (p : TaskSendParams) (w : World) :
  has_record (after_upsert p w) (tsp_id p).
Proof.
  unfold has_record, after_upsert, upsert_task.
  destruct (tasks w !! tsp_id p) eqn:E; simpl; rewrite ?E, !lookup_insert_eq; eauto.
Qed.

Lemma update_store_keeps_absent
    (task_id k : string) (status : TaskStatus) (artifacts : option (list Artifact))
    (w : World) :
  tasks w !! k = None ->
  tasks (snd (_update_store task_id status artifacts w)) !! k = None.
Proof.
  intros Hk. destruct (tasks w !! task_id) as [t|] eqn:Ht.
  - assert (task_id <> k) as Hne by congruence.
    rewrite (update_store_found _ _ _ _ _ Ht).
    unfold bind, task_messages_append, task_write, ret.
    destruct (ts_message status); simpl;
      [destruct (task_messages w !! task_id)|];
      destruct artifacts; simpl; by rewrite ?lookup_insert_ne.
  - by rewrite (update_store_absent _ _ _ _ Ht).
Qed.

Lemma run_ops_keeps_absent (ops : list StoreOp) (k : string) (w : World) :
  tasks w !! k = None ->
  Forall (fun op => upserts op <> Some k) ops ->
  tasks (run_ops ops w) !! k = None.
Proof.
  unfold run_ops. revert w.
  induction ops as [|op ops IH]; intros w Hw Hops; simpl; [done|].
  inversion Hops as [|? ? Hop Hrest]; subst. apply IH; [|done].
  destruct op as [p|task_id status artifacts]; simpl in *.
  - rewrite <- Hw. apply upsert_task_tasks. congruence.
  - by apply update_store_keeps_absent.
Qed.

(** An identifier that no operation so far upserted has no record: starting
    from the empty store, only [upsert_task] adds keys to [self.tasks]. *)
Lemma never_upserted_no_record (uuids : nat -> string) (ops : list StoreOp) (k : string) :
  Forall (fun op => upserts op <> Some k) ops ->
  tasks (run_ops ops (initial_world uuids)) !! k = None.
Proof. by apply run_ops_keeps_absent. Qed.

End TaskStore.

(** ** The request handlers *)

Section Handlers.

Lemma extract_sources_pure (raw : string) :
  exists p, forall w, extract_sources raw w = (Ok p, w).
Proof.
  destruct (occurrence_cases "Sources:" raw) as [(pre & post & F)|N].
  - eexists. intros w. by apply extract_sources_marker.
  - eexists. intros w. by apply extract_sources_no_marker.
Qed.

(** A result of [invoke] with [error] set comes from a pipeline exception. *)
Lemma invoke_error_inv (self : ResearchAgent) (query session_id : string)
    (w w1 : World) (r : ResearchResult) (err : string) :
  invoke self query session_id w = (Ok r, w1) ->
  rr_error r = Some err ->
  exists e,
    research_crew self query = Raises e /\
    err = "Error performing research: " +:+ exc_str e.
Proof.
  intros Hi He. destruct (research_crew self query) as [raw|e] eqn:Hc.
  - destruct (extract_sources_pure raw) as [[content sources] Hp].
    rewrite (invoke_returns _ _ _ raw content sources w Hc Hp) in Hi.
    injection Hi as <- <-. discriminate.
  - rewrite (invoke_raises _ _ _ e w Hc) in Hi. injection Hi as <- <-.
    exists e. cbn [rr_error] in He. injection He as <-. by split.
Qed.

(** [_invoke] when the pipeline raises on the query of the request. *)
Lemma _invoke_pipeline_raises
    (self : ResearchTaskManager) (request : SendTaskRequest) (w : World)
    (text : string) (rest : list Part) (t : Task) (e : Exception) :
  msg_parts (tsp_message (req_params request)) = TextPart text :: rest ->
  tasks w !! tsp_id (req_params request) = Some t ->
  research_crew (agent self) text = Raises e ->
  let task :=
    mkTask (t_id t) (t_sessionId t) (mkTaskStatus COMPLETED None)
      (Some (default [] (t_artifacts t) ++
             [mkArtifact [TextPart ("Error performing research: " +:+ exc_str e)]])) in
  exists (w' : World),
    _invoke self request w = (Ok (mkResponse (req_id request) (Some task) None), w') /\
    tasks w' = <[tsp_id (req_params request) := task]> (tasks w) /\
    task_messages w' = task_messages w /\
    kickoffs w' = kickoffs w ++ [text].
Proof.
  intros Hparts Ht Hc.
  pose proof (invoke_raises (agent self) text (tsp_sessionId (req_params request))
                e w Hc) as Hi.
  set (r := mkResearchResult _ None None _) in Hi.
  set (w1 := after_invoke _ _ w) in Hi.
  assert (tasks (add_log (Log INFO ("Research completed with ID: "
             +:+ default "None" (rr_id r)) []) w1)
          !! tsp_id (req_params request) = Some t) as Ht1 by done.
  unfold _invoke, _get_user_query. rewrite Hparts.
  unfold bind at 1. unfold ret at 1.
  unfold bind at 1, try_except. rewrite Hi.
  unfold bind at 1, result_parts. simpl.
  unfold bind at 1, logger at 1.
  unfold bind at 1. rewrite (update_store_found _ _ _ _ _ Ht1). simpl.
  unfold bind, task_write, ret. simpl.
  eexists. split; [reflexivity|]. simpl.
  by rewrite insert_insert_eq.
Qed.

(** C5: when the executor's result has [error] set, [_invoke] completes
    the task as usual: the task gets the status COMPLETED (with no
    message) and one more artifact, made of one text part whose text is the
    error message; the response carries the task and no protocol error. *)
Theorem invoke_failure_surfaces_as_completed_task
    (self : ResearchTaskManager) (request : SendTaskRequest) (w w1 : World)
    (text : string) (rest : list Part) (t : Task) (r : ResearchResult) (err : string) :
  msg_parts (tsp_message (req_params request)) = TextPart text :: rest ->
  tasks w !! tsp_id (req_params request) = Some t ->
  invoke (agent self) text (tsp_sessionId (req_params request)) w = (Ok r, w1) ->
  rr_error r = Some err ->
  exists (task : Task) (w' : World),
    _invoke self request w = (Ok (mkResponse (req_id request) (Some task) None), w') /\
    t_status task = mkTaskStatus COMPLETED None /\
    t_artifacts task =
      Some (default [] (t_artifacts t) ++ [mkArtifact [TextPart err]]) /\
    tasks w' = <[tsp_id (req_params request) := task]> (tasks w) /\
    task_messages w' = task_messages w.
Proof.
  intros Hparts Ht Hi He.
  destruct (invoke_error_inv _ _ _ _ _ _ _ Hi He) as (e & Hc & ->).
  destruct (_invoke_pipeline_raises self request w text rest t e Hparts Ht Hc)
    as (w' & H & Htasks & Hmsgs & _).
  eexists. exists w'. split; [exact H|]. by simpl.
Qed.

Lemma invoke_failure_witness :
  exists (task : Task) (w' : World),
    _invoke example_manager example_request example_store =
      (Ok (mkResponse "req-1" (Some task) None), w') /\
    t_status task = mkTaskStatus COMPLETED None /\
    t_artifacts task =
      Some [mkArtifact [TextPart "Error performing research: connection refused"]].
Proof.
  destruct (invoke_failure_surfaces_as_completed_task
              example_manager example_request example_store _
              "quantum computing" [] example_task _ _
              eq_refl eq_refl
              (invoke_raises failing_agent "quantum computing" "session-1"
                 (Exc OtherException "connection refused") example_store eq_refl)
              eq_refl)
    as (task & w' & H & Hs & Ha & _).
  exists task, w'. done.
Defined.


(** Accepted output modes that name neither supported type are not
    compatible. *)
Lemma excluded_modes_incompatible (modes : list string) :
  "text" ∉ modes -> "text/plain" ∉ modes ->
  are_modalities_compatible (Some modes) SUPPORTED_CONTENT_TYPES = false.
Proof.
  intros H1 H2. simpl. apply not_true_is_false. intros H.
  apply existsb_exists in H as (m & Hin & Hm).
  apply bool_decide_eq_true in Hm. apply list_elem_of_In in Hin.
  unfold SUPPORTED_CONTENT_TYPES in Hm.
  apply elem_of_cons in Hm as [->|Hm]; [done|].
  apply elem_of_cons in Hm as [->|Hm]; [done|].
  by apply elem_of_nil in Hm.
Qed.

(** C6: when the accepted output modes are not compatible with the
    supported content types, [on_send_task] returns the incompatible-types
    error for the request; the pipeline is not run, no identifier is drawn,
    and both dicts of the store are untouched.  Only a warning is logged. *)
Theorem on_send_task_rejects_incompatible_modes
    (self : ResearchTaskManager) (request : SendTaskRequest) (w : World) :
  are_modalities_compatible
    (tsp_acceptedOutputModes (req_params request)) SUPPORTED_CONTENT_TYPES = false ->
  exists (w' : World),
    on_send_task self request w =
      (Ok (mkResponse (req_id request) None (Some ContentTypeNotSupportedError)), w') /\
    tasks w' = tasks w /\
    task_messages w' = task_messages w /\
    kickoffs w' = kickoffs w /\
    uuid_drawn w' = uuid_drawn w /\
    log w' = log w ++
      [Log WARNING "Unsupported output mode. Received %s, Support %s"
         [modes_arg (tsp_acceptedOutputModes (req_params request));
          ArgList SUPPORTED_CONTENT_TYPES]].
Proof.
  intros Hc. unfold on_send_task. rewrite Hc. simpl.
  eexists. split; [reflexivity|]. done.
Qed.

Lemma on_send_task_rejects_witness :
  exists (w' : World),
    on_send_task example_manager image_request example_store =
      (Ok (mkResponse "req-2" None (Some ContentTypeNotSupportedError)), w') /\
    tasks w' = tasks example_store /\
    task_messages w' = task_messages example_store /\
    kickoffs w' = [].
Proof.
  destruct (on_send_task_rejects_incompatible_modes example_manager image_request
              example_store eq_refl)
    as (w' & H & Ht & Hm & Hk & _).
  exists w'. done.
Defined.

Lemma upsert_task_ok (p : TaskSendParams) (w : World) :
  exists t, upsert_task p w = (Ok t, after_upsert p w).
Proof.
  unfold after_upsert, upsert_task. destruct (tasks w !! tsp_id p); simpl; eauto.
Qed.

Lemma upsert_task_mutates (p : TaskSendParams) (w : World) :
  tasks (after_upsert p w) !! tsp_id p <> tasks w !! tsp_id p \/
  task_messages (after_upsert p w) !! tsp_id p <> task_messages w !! tsp_id p.
Proof.
  unfold after_upsert, upsert_task.
  destruct (tasks w !! tsp_id p) as [t|] eqn:E; simpl.
  - right. rewrite lookup_insert_eq.
    destruct (task_messages w !! tsp_id p) as [ms|]; simpl; [|done].
    intros [= H]. apply (f_equal length) in H. rewrite length_app in H.
    simpl in H. lia.
  - left. by rewrite lookup_insert_eq.
Qed.

Lemma upsert_task_frame (p : TaskSendParams) (w : World) :
  kickoffs (after_upsert p w) = kickoffs w /\
  uuid_drawn (after_upsert p w) = uuid_drawn w /\
  log (after_upsert p w) = log w.
Proof.
  unfold after_upsert, upsert_task. by destruct (tasks w !! tsp_id p).
Qed.

Lemma upsert_task_lookup (p : TaskSendParams) (w : World) :
  tasks (after_upsert p w) !! tsp_id p =
    Some (default (mkTask (tsp_id p) (tsp_sessionId p) (mkTaskStatus SUBMITTED None) None)
                  (tasks w !! tsp_id p)).
Proof.
  unfold after_upsert, upsert_task.
  destruct (tasks w !! tsp_id p) as [t|] eqn:E; simpl; [done|].
  by rewrite lookup_insert_eq.
Qed.

(** A whole send-task request whose pipeline run fails: the handler
    answers with the task, completed, its last artifact the error text. *)
Lemma on_send_task_pipeline_raises
    (self : ResearchTaskManager) (request : SendTaskRequest) (w : World)
    (text : string) (rest : list Part) (e : Exception) :
  are_modalities_compatible
    (tsp_acceptedOutputModes (req_params request)) SUPPORTED_CONTENT_TYPES = true ->
  msg_parts (tsp_message (req_params request)) = TextPart text :: rest ->
  research_crew (agent self) text = Raises e ->
  exists (task : Task) (w' : World),
    on_send_task self request w =
      (Ok (mkResponse (req_id request) (Some task) None), w') /\
    t_status task = mkTaskStatus COMPLETED None /\
    (exists old, t_artifacts task =
       Some (old ++ [mkArtifact [TextPart ("Error performing research: " +:+ exc_str e)]])) /\
    tasks w' !! tsp_id (req_params request) = Some task.
Proof.
  intros Hc Hparts He.
  destruct (upsert_task_ok (req_params request) w) as [t0 Hu].
  destruct (_invoke_pipeline_raises self request (after_upsert (req_params request) w)
              text rest _ e Hparts (upsert_task_lookup _ _) He)
    as (w' & H & Htasks & _).
  unfold on_send_task. rewrite Hc. simpl. unfold bind at 1. rewrite Hu.
  eexists. exists w'. split; [exact H|]. simpl. split; [done|]. split; [eauto|].
  by rewrite Htasks, lookup_insert_eq.
Qed.

(** C10: when the modes are compatible but the first part of the message
    is not a text part, [on_send_task] upserts the task and then raises
    [ValueError] "Only text parts are supported" to its caller.  The world
    it leaves is the one after the upsert: the task has a record, the store
    differs from before, and the pipeline was not run. *)
Theorem on_send_task_non_text_part_raises_after_upsert
    (self : ResearchTaskManager) (request : SendTaskRequest) (w : World)
    (p : Part) (rest : list Part) :
  are_modalities_compatible
    (tsp_acceptedOutputModes (req_params request)) SUPPORTED_CONTENT_TYPES = true ->
  msg_parts (tsp_message (req_params request)) = p :: rest ->
  (forall text, p <> TextPart text) ->
  on_send_task self request w =
    (Raise (Exc ValueError "Only text parts are supported"),
     after_upsert (req_params request) w) /\
  has_record (after_upsert (req_params request) w) (tsp_id (req_params request)) /\
  (tasks (after_upsert (req_params request) w) !! tsp_id (req_params request)
     <> tasks w !! tsp_id (req_params request) \/
   task_messages (after_upsert (req_params request) w) !! tsp_id (req_params request)
     <> task_messages w !! tsp_id (req_params request)) /\
  kickoffs (after_upsert (req_params request) w) = kickoffs w.
Proof.
  intros Hc Hparts Hp.
  split; [|split; [apply upsert_task_registers|split;
                   [apply upsert_task_mutates|apply upsert_task_frame]]].
  unfold on_send_task. rewrite Hc. simpl.
  destruct (upsert_task_ok (req_params request) w) as [t Hu].
  unfold bind at 1. rewrite Hu.
  unfold _invoke, _get_user_query. rewrite Hparts.
  destruct p as [text| |]; [by destruct (Hp text)| |]; reflexivity.
Qed.

Lemma on_send_task_non_text_part_witness :
  on_send_task example_manager file_request example_store =
    (Raise (Exc ValueError "Only text parts are supported"),
     after_upsert (req_params file_request) example_store) /\
  tasks example_store !! "t3" = None /\
  is_Some (tasks (after_upsert (req_params file_request) example_store) !! "t3").
Proof.
  destruct (on_send_task_non_text_part_raises_after_upsert example_manager
              file_request example_store (FilePart "report.pdf")
              [TextPart "summarise"] eq_refl eq_refl)
    as (H & [Hr _] & _).
  - intros text. discriminate.
  - split; [exact H|]. split; [reflexivity|exact Hr].
Defined.

(** C7: streaming is not supported.  [ResearchAgent.stream] and the
    manager's [_stream_generator] raise [NotImplementedError] on every
    input.  [on_send_task_subscribe], for a request that passes
    validation, upserts the task and hands back nothing; iterating what it
    hands back as a stream fails. *)
Theorem streaming_is_not_supported (self : ResearchTaskManager) :
  (forall query w,
     stream (agent self) query w =
       (Raise (Exc NotImplementedError "Streaming is not supported by CrewAI."), w)) /\
  (forall request w,
     _stream_generator self request w =
       (Raise (Exc NotImplementedError "Not implemented"), w)) /\
  (forall request w,
     _validate_request self request = None ->
     on_send_task_subscribe self request w =
       (Ok VNone, after_upsert (req_params request) w) /\
     has_record (after_upsert (req_params request) w) (tsp_id (req_params request)) /\
     exists e, async_for VNone (after_upsert (req_params request) w) =
                 (Raise e, after_upsert (req_params request) w)).
Proof.
  split; [done|]. split; [done|].
  intros request w Hv. split; [|split; [apply upsert_task_registers|by eexists]].
  unfold on_send_task_subscribe. rewrite Hv.
  destruct (upsert_task_ok (req_params request) w) as [t Hu].
  unfold bind. by rewrite Hu.
Qed.

Lemma streaming_is_not_supported_witness :
  on_send_task_subscribe example_manager example_request (initial_world example_uuids) =
    (Ok VNone, after_upsert (req_params example_request) (initial_world example_uuids)) /\
  is_Some (tasks (after_upsert (req_params example_request)
                    (initial_world example_uuids)) !! "t1").
Proof.
  destruct (streaming_is_not_supported example_manager) as (_ & _ & H).
  destruct (H example_request (initial_world example_uuids) eq_refl)
    as (Hs & [Hr _] & _).
  split; [exact Hs|exact Hr].
Defined.

End Handlers.

(** ** Start-up *)

Section Startup.

(** C8: what [main] does when the LLM key is absent.  The check at the
    top of [main] reads [GOOGLE_API_KEY], while the key handed to the LLM
    is [DASH_API_KEY].  With [GOOGLE_API_KEY] set and [DASH_API_KEY] absent
    the check passes and, unless an external constructor raises, the server
    is started on an agent whose key is [None]; with [DASH_API_KEY] set and
    [GOOGLE_API_KEY] absent the process exits with status 1. *)
Theorem main_checks_another_key
    (construct : option string -> option string -> option Exception)
    (host : string) (port : Z) :
  get_api_key env_without_llm_key = None /\
  main construct env_without_llm_key host port =
    match construct None None with
    | Some _ => Exit 1
    | None => ServerStarted None None host port
    end /\
  get_api_key env_with_llm_key = Some "sk-1" /\
  main construct env_with_llm_key host port = Exit 1.
Proof. repeat split. Qed.

End Startup.

(** ** Concurrent updates *)

Section Concurrent.

Lemma body_step_release (c : Call) (s : Pc * World) (r : Result Task) :
  fst s = AtRelease r -> body_step c s = s.
Proof. intros H. unfold body_step. by rewrite H. Qed.

Lemma body_iter_release (c : Call) (n : nat) (s : Pc * World) (r : Result Task) :
  fst s = AtRelease r -> Nat.iter n (body_step c) s = s.
Proof.
  intros H. induction n as [|n IH]; simpl; [done|].
  rewrite IH. by apply (body_step_release _ _ r).
Qed.

(** *** The statements of the body, one by one *)

Lemma step_lookup_found (c : Call) (w : World) (t : Task) :
  tasks w !! c_task_id c = Some t -> body_step c (AtLookup, w) = (AtStatus, w).
Proof.
  intros Ht. unfold body_step, continue, try_except, bind, tasks_getitem. simpl.
  by rewrite Ht.
Qed.

Lemma step_lookup_missing (c : Call) (w : World) :
  tasks w !! c_task_id c = None ->
  body_step c (AtLookup, w) =
    (AtRelease (Raise (Exc ValueError ("Task " +:+ c_task_id c +:+ " not found"))),
     add_log (Log ERROR "Task %s not found for updating the task"
                [ArgStr (c_task_id c)]) w).
Proof.
  intros Ht. unfold body_step, continue, try_except, bind, tasks_getitem. simpl.
  by rewrite Ht.
Qed.

Lemma step_status (c : Call) (w : World) (t : Task) :
  tasks w !! c_task_id c = Some t ->
  body_step c (AtStatus, w) =
    (AtMessage, set_tasks (insert (c_task_id c) (with_status (c_status c) t)) w).
Proof.
  intros Ht. unfold body_step, continue, bind, tasks_getitem. simpl.
  by rewrite Ht.
Qed.

Lemma step_message_none (c : Call) (w : World) :
  ts_message (c_status c) = None -> body_step c (AtMessage, w) = (AtArtifacts, w).
Proof. intros Hm. unfold body_step, continue, bind. simpl. by rewrite Hm. Qed.

Lemma step_message_some (c : Call) (w : World) (m : Message) (ms : list Message) :
  ts_message (c_status c) = Some m ->
  task_messages w !! c_task_id c = Some ms ->
  body_step c (AtMessage, w) =
    (AtArtifacts, set_task_messages (insert (c_task_id c) (ms ++ [m])) w).
Proof.
  intros Hm Hms. unfold body_step, continue, bind, task_messages_append. simpl.
  by rewrite Hm, Hms.
Qed.

Lemma step_message_fail (c : Call) (w : World) (m : Message) :
  ts_message (c_status c) = Some m ->
  task_messages w !! c_task_id c = None ->
  body_step c (AtMessage, w) = (AtRelease (Raise (Exc KeyError (c_task_id c))), w).
Proof.
  intros Hm Hms. unfold body_step, continue, bind, task_messages_append. simpl.
  by rewrite Hm, Hms.
Qed.

Lemma step_artifacts_none (c : Call) (w : World) :
  c_artifacts c = None -> body_step c (AtArtifacts, w) = (AtReturn, w).
Proof. intros Ha. unfold body_step, continue, bind. simpl. by rewrite Ha. Qed.

Lemma step_artifacts_some (c : Call) (w : World) (arts : list Artifact) (t : Task) :
  c_artifacts c = Some arts ->
  tasks w !! c_task_id c = Some t ->
  body_step c (AtArtifacts, w) =
    (AtReturn,
     set_tasks (insert (c_task_id c)
                  (with_artifacts (Some (default [] (t_artifacts t) ++ arts)) t)) w).
Proof.
  intros Ha Ht. unfold body_step, continue, bind, tasks_getitem, task_write. simpl.
  rewrite Ha. simpl. rewrite Ht. by destruct t as [i sid st [a|]].
Qed.

Lemma step_return (c : Call) (w : World) (t : Task) :
  tasks w !! c_task_id c = Some t -> body_step c (AtReturn, w) = (AtRelease (Ok t), w).
Proof.
  intros Ht. unfold body_step, continue, bind, tasks_getitem. simpl.
  by rewrite Ht.
Qed.

(** The five statements of the body, run without interruption, are
    [_update_store]. *)
Lemma body_run (c : Call) (w : World) :
  body_after c 5 w = (AtRelease (call_result c w), run_call c w).
Proof.
  unfold body_after, call_result, run_call. simpl Nat.iter.
  destruct (tasks w !! c_task_id c) as [t|] eqn:Ht.
  - rewrite (update_store_found _ _ _ _ _ Ht).
    rewrite (step_lookup_found _ _ _ Ht), (step_status _ _ _ Ht).
    set (w1 := set_tasks _ w).
    assert (tasks w1 !! c_task_id c = Some (with_status (c_status c) t)) as Ht1
      by apply lookup_insert_eq.
    destruct (ts_message (c_status c)) as [m|] eqn:Hm.
    + destruct (task_messages w1 !! c_task_id c) as [ms|] eqn:Hms.
      * rewrite (step_message_some _ _ _ _ Hm Hms).
        set (w2 := set_task_messages _ w1).
        destruct (c_artifacts c) as [arts|] eqn:Ha.
        -- rewrite (step_artifacts_some _ w2 _ _ Ha Ht1).
           erewrite step_return by apply lookup_insert_eq.
           unfold bind, task_messages_append, task_write, ret. by rewrite Hms.
        -- rewrite (step_artifacts_none _ _ Ha).
           rewrite (step_return _ w2 _ Ht1).
           unfold bind, task_messages_append, task_write, ret. by rewrite Hms.
      * rewrite (step_message_fail _ _ _ Hm Hms).
        rewrite !(body_step_release _ _ (Raise (Exc KeyError (c_task_id c)))) by done.
        unfold bind, task_messages_append. by rewrite Hms.
    + rewrite (step_message_none _ _ Hm).
      destruct (c_artifacts c) as [arts|] eqn:Ha.
      * rewrite (step_artifacts_some _ w1 _ _ Ha Ht1).
        by erewrite step_return by apply lookup_insert_eq.
      * rewrite (step_artifacts_none _ _ Ha).
        by rewrite (step_return _ w1 _ Ht1).
  - rewrite (update_store_absent _ _ _ _ Ht), (step_lookup_missing _ _ Ht).
    by rewrite !(body_step_release _ _
      (Raise (Exc ValueError ("Task " +:+ c_task_id c +:+ " not found")))).
Qed.

Lemma continue_in_body (m : M Pc) (w : World) :
  (forall pc w', m w = (Ok pc, w') -> in_body pc = true) ->
  in_body (fst (continue m w)) = true.
Proof.
  intros H. unfold continue. destruct (m w) as [[pc|e] w'] eqn:E; [|done].
  by apply (H pc w').
Qed.

(** Inside the body a statement leads to a point inside the body. *)
Lemma body_step_in_body (c : Call) (s : Pc * World) :
  in_body (fst s) = true -> in_body (fst (body_step c s)) = true.
Proof.
  destruct s as [pc w]. unfold body_step. simpl.
  destruct pc; try done; intros _; apply continue_in_body; intros pc w'.
  - unfold try_except, bind, tasks_getitem, ret, logger, raise.
    destruct (tasks w !! c_task_id c); simpl; [by intros [= <- _]|done].
  - unfold bind, tasks_getitem, task_write, ret.
    destruct (tasks w !! c_task_id c); simpl; [by intros [= <- _]|done].
  - unfold bind, task_messages_append, ret.
    destruct (ts_message (c_status c)); simpl; [|by intros [= <- _]].
    destruct (task_messages w !! c_task_id c); simpl; [by intros [= <- _]|done].
  - unfold bind, tasks_getitem, task_write, ret.
    destruct (c_artifacts c); simpl; [|by intros [= <- _]].
    destruct (tasks w !! c_task_id c); simpl; [by intros [= <- _]|done].
  - unfold bind, tasks_getitem, ret.
    destruct (tasks w !! c_task_id c); simpl; [by intros [= <- _]|done].
Qed.

Lemma body_after_in_body (c : Call) (k : nat) (w : World) :
  in_body (fst (body_after c k w)) = true.
Proof.
  unfold body_after. induction k as [|k IH]; simpl; [done|].
  by apply body_step_in_body.
Qed.

(** A body that reached its end ran the whole of [_update_store]. *)
Lemma body_after_release (c : Call) (k : nat) (w : World) (r : Result Task) :
  fst (body_after c k w) = AtRelease r ->
  body_after c k w = (AtRelease (call_result c w), run_call c w).
Proof.
  intros H. rewrite <- body_run. unfold body_after in *.
  transitivity (Nat.iter (5 + k) (body_step c) (AtLookup, w)).
  - rewrite Nat.iter_add. symmetry. by apply (body_iter_release _ _ _ r).
  - rewrite Nat.add_comm, Nat.iter_add.
    apply (body_iter_release _ _ _ (call_result c w)).
    change (fst (body_after c 5 w) = AtRelease (call_result c w)).
    by rewrite body_run.
Qed.

Lemma serial_snoc (calls : list Call) (order : list nat) (i : nat) (c : Call) (w : World) :
  calls !! i = Some c ->
  serial calls (order ++ [i]) w = run_call c (serial calls order w).
Proof. intros H. unfold serial. rewrite fold_left_app. simpl. by rewrite H. Qed.

(** *** The invariant of the scheduler *)

Lemma inv_start (w0 : World) (calls : list Call) :
  Inv w0 calls (start w0 calls) [] None.
Proof.
  split; [constructor|]. split; [|split; [|done]].
  - intros i c pc. unfold start. simpl. rewrite list_lookup_fmap.
    destruct (calls !! i) as [c'|] eqn:E; simpl; [|done].
    intros [= <- <-]. split; [done|]. split; [|done]. by intros ?%elem_of_nil.
  - by intros i ?%elem_of_nil.
Qed.

(** A call other than the one that moves keeps its description. *)
Lemma thread_ok_other (w0 : World) (calls : list Call) (order order' : list nat)
    (hold hold' : option (nat * nat)) (i i' : nat) (c : Call) (pc : Pc) :
  thread_ok w0 calls order hold i' c pc ->
  i' <> i ->
  (forall k, hold <> Some (i', k)) ->
  (forall k, hold' <> Some (i', k)) ->
  order' = order \/ order' = order ++ [i] ->
  thread_ok w0 calls order' hold' i' c pc.
Proof.
  intros [Hc Hpc] Hne Hh Hh' Ho. split; [done|].
  assert (i' ∉ order -> i' ∉ order') as Hnotin.
  { intros Hn. destruct Ho as [->| ->]; [done|].
    rewrite elem_of_app, list_elem_of_singleton. tauto. }
  destruct pc; try (destruct Hpc as (_ & k & Hk & _); by destruct (Hh k)).
  - destruct Hpc as [Hn _]. auto.
  - destruct Hpc as (pre & post & -> & Hr).
    destruct Ho as [->| ->].
    + by exists pre, post.
    + exists pre, (post ++ [i]). split; [|done]. by rewrite <- app_assoc.
Qed.

Lemma inv_acquire (w0 : World) (calls : list Call) (cfg : Config)
    (order : list nat) (hold : option (nat * nat)) (i : nat) (c : Call) :
  Inv w0 calls cfg order hold ->
  threads cfg !! i = Some (c, AtAcquire) ->
  locked cfg = false ->
  Inv w0 calls (mkConfig (world cfg) true (<[i := (c, AtLookup)]> (threads cfg)))
      order (Some (i, 0)).
Proof.
  intros (Hnd & Hth & Hord & Hhold) Hi Hl.
  destruct hold as [[j k]|]; [destruct Hhold as [Hl' _]; congruence|].
  destruct Hhold as [_ Hw].
  destruct (Hth _ _ _ Hi) as (Hc & Hn & _).
  assert (i < length (threads cfg)) as Hlt by (by eapply lookup_lt_Some).
  split; [done|]. split; [|split]; cbn [threads world locked].
  - intros i' c' pc' [(<- & [= <- <-] & _)|(Hne & Hi')]%list_lookup_insert_Some.
    + split; [done|]. split; [done|]. by exists 0.
    + eapply thread_ok_other; [by apply Hth|done|done| |by left].
      intros k [= -> _]. done.
  - intros i' Hin. destruct (Hord _ Hin) as (c' & r & Hi').
    exists c', r. rewrite list_lookup_insert_ne; [done|]. congruence.
  - split; [done|]. exists c. by rewrite list_lookup_insert_eq.
Qed.

Lemma inv_body (w0 : World) (calls : list Call) (cfg : Config)
    (order : list nat) (hold : option (nat * nat)) (i : nat) (c : Call) (pc : Pc) :
  Inv w0 calls cfg order hold ->
  threads cfg !! i = Some (c, pc) ->
  in_body pc = true ->
  exists k,
    hold = Some (i, k) /\
    (pc, world cfg) = body_after c k (serial calls order w0) /\
    Inv w0 calls
      (mkConfig (snd (body_step c (pc, world cfg))) (locked cfg)
         (<[i := (c, fst (body_step c (pc, world cfg)))]> (threads cfg)))
      order (Some (i, S k)).
Proof.
  intros (Hnd & Hth & Hord & Hhold) Hi Hb.
  destruct (Hth _ _ _ Hi) as (Hc & Hpc).
  assert ((i ∉ order) /\ exists k, hold = Some (i, k) /\
            pc = fst (body_after c k (serial calls order w0))) as (Hn & k & -> & Hk).
  { by destruct pc. }
  destruct Hhold as (Hl & c' & Hc' & Hi' & Hw).
  assert (c' = c) as -> by congruence.
  assert ((pc, world cfg) = body_after c k (serial calls order w0)) as Hs.
  { rewrite Hk, Hw. by destruct (body_after c k (serial calls order w0)). }
  assert (i < length (threads cfg)) as Hlt by (by eapply lookup_lt_Some).
  exists k. split; [done|]. split; [done|].
  rewrite Hs. change (body_step c (body_after c k (serial calls order w0)))
    with (body_after c (S k) (serial calls order w0)).
  split; [done|]. split; [|split]; cbn [threads world locked].
  - intros i' c'' pc'' [(<- & [= <- <-] & _)|(Hne & Hi'')]%list_lookup_insert_Some.
    + split; [done|].
      pose proof (body_after_in_body c (S k) (serial calls order w0)) as Hin.
      change (body_step c (body_after c k (serial calls order w0)))
        with (body_after c (S k) (serial calls order w0)).
      destruct (fst (body_after c (S k) (serial calls order w0))) eqn:E;
        try done; split; try done; by exists (S k).
    + eapply thread_ok_other; [by apply Hth|done| | |by left];
        intros k' [= -> _]; done.
  - intros i' Hin. destruct (Hord _ Hin) as (c'' & r & Hi'').
    exists c'', r. rewrite list_lookup_insert_ne; [done|]. intros <-.
    rewrite Hi in Hi''. injection Hi'' as _ ->. done.
  - split; [done|]. exists c. by rewrite list_lookup_insert_eq.
Qed.

Lemma inv_release (w0 : World) (calls : list Call) (cfg : Config)
    (order : list nat) (hold : option (nat * nat)) (i : nat) (c : Call)
    (r : Result Task) :
  Inv w0 calls cfg order hold ->
  threads cfg !! i = Some (c, AtRelease r) ->
  Inv w0 calls (mkConfig (world cfg) false (<[i := (c, Finished r)]> (threads cfg)))
      (order ++ [i]) None.
Proof.
  intros HI Hi.
  destruct (inv_body _ _ _ _ _ _ _ _ HI Hi eq_refl) as (k & -> & Hs & _).
  destruct HI as (Hnd & Hth & Hord & Hhold).
  destruct (Hth _ _ _ Hi) as (Hc & Hn & _).
  assert (body_after c k (serial calls order w0) =
            (AtRelease (call_result c (serial calls order w0)),
             run_call c (serial calls order w0))) as Hrun.
  { apply (body_after_release _ _ _ r). by rewrite <- Hs. }
  rewrite Hrun in Hs. injection Hs as Hr Hw.
  assert (i < length (threads cfg)) as Hlt by (by eapply lookup_lt_Some).
  split; [|split; [|split]]; cbn [threads world locked].
  - apply NoDup_app. split; [done|]. split; [|apply NoDup_singleton].
    intros x Hx ->%list_elem_of_singleton. done.
  - intros i' c' pc' [(<- & [= <- <-] & _)|(Hne & Hi')]%list_lookup_insert_Some.
    + split; [done|]. exists order, []. by split; [|congruence].
    + eapply thread_ok_other; [by apply Hth|done| |done|by right].
      intros k' [= -> _]. done.
  - intros i' [Hin| ->%list_elem_of_singleton]%elem_of_app.
    + destruct (Hord _ Hin) as (c' & r' & Hi').
      exists c', r'. rewrite list_lookup_insert_ne; [done|]. intros <-.
      rewrite Hi in Hi'. by injection Hi'.
    + exists c, r. by rewrite list_lookup_insert_eq.
  - split; [done|]. by rewrite (serial_snoc _ _ _ c).
Qed.

Lemma inv_step (w0 : World) (calls : list Call) (cfg : Config)
    (order : list nat) (hold : option (nat * nat)) (i : nat) :
  Inv w0 calls cfg order hold ->
  exists order' hold', Inv w0 calls (step i cfg) order' hold'.
Proof.
  intros HI. unfold step.
  destruct (threads cfg !! i) as [[c pc]|] eqn:Hi; [|eauto].
  destruct pc;
    try (destruct (inv_body _ _ _ _ _ _ _ _ HI Hi eq_refl) as (k & _ & _ & HI');
         by eauto).
  - destruct (locked cfg) eqn:Hl; [eauto|].
    eauto using inv_acquire.
  - eauto using inv_release.
  - eauto.
Qed.

Lemma inv_run (w0 : World) (calls : list Call) (schedule : list nat) :
  exists order hold, Inv w0 calls (run schedule (start w0 calls)) order hold.
Proof.
  unfold run. generalize (inv_start w0 calls).
  generalize (start w0 calls) (@nil nat) (@None (nat * nat)).
  induction schedule as [|i schedule IH]; intros cfg order hold HI; simpl; [eauto|].
  destruct (inv_step _ _ _ _ _ i HI) as (order' & hold' & HI'). eauto.
Qed.

(** *** What a serial run leaves *)

Lemma run_call_task (c : Call) (w : World) :
  store_wf w ->
  store_wf (run_call c w) /\
  forall k t, tasks w !! k = Some t ->
    tasks (run_call c w) !! k =
      Some (if bool_decide (c_task_id c = k) then apply_call t c else t).
Proof.
  intros Hwf. unfold run_call.
  destruct (tasks w !! c_task_id c) as [t|] eqn:Ht.
  - destruct (Hwf (c_task_id c)) as [ms Hms]; [by eexists|].
    destruct (update_store_present _ (c_status c) (c_artifacts c) _ _ _ Ht Hms)
      as (w' & -> & Htasks & Hmsgs & _).
    simpl. split.
    + intros k. rewrite Htasks, Hmsgs.
      destruct (decide (c_task_id c = k)) as [<-|Hne].
      * rewrite !lookup_insert_eq. eauto.
      * rewrite !lookup_insert_ne by done. apply Hwf.
    + intros k t' Hk. rewrite Htasks. case_bool_decide as Hd.
      * subst k. rewrite lookup_insert_eq. rewrite Ht in Hk. by injection Hk as <-.
      * by rewrite lookup_insert_ne.
  - rewrite (update_store_absent _ _ _ _ Ht). simpl. split; [done|].
    intros k t Hk. case_bool_decide as Hd; [congruence|done].
Qed.

Lemma upsert_task_wf (p : TaskSendParams) (w : World) :
  store_wf w -> store_wf (after_upsert p w).
Proof.
  intros Hwf k. unfold after_upsert, upsert_task.
  destruct (tasks w !! tsp_id p) as [t|] eqn:Ht; simpl.
  - intros Hk. destruct (decide (tsp_id p = k)) as [<-|Hne].
    + rewrite lookup_insert_eq. eauto.
    + rewrite lookup_insert_ne by done. by apply Hwf.
  - destruct (decide (tsp_id p = k)) as [<-|Hne].
    + rewrite !lookup_insert_eq. eauto.
    + rewrite !lookup_insert_ne by done. by apply Hwf.
Qed.

(** Every store that upserts and updates build from the empty one is
    well formed. *)
Lemma run_ops_wf (uuids : nat -> string) (ops : list StoreOp) :
  store_wf (run_ops ops (initial_world uuids)).
Proof.
  unfold run_ops.
  assert (store_wf (initial_world uuids)) as H.
  { intros k [t Ht]. simpl in Ht. by rewrite lookup_empty in Ht. }
  revert H. generalize (initial_world uuids).
  induction ops as [|op ops IH]; intros w Hwf; simpl; [done|].
  apply IH. destruct op as [p|task_id status artifacts]; simpl.
  - by apply upsert_task_wf.
  - by apply (run_call_task (mkCall task_id status artifacts)).
Qed.

Lemma serial_task (calls : list Call) (order : list nat) (w : World)
    (k : string) (t0 : Task) :
  store_wf w ->
  tasks w !! k = Some t0 ->
  tasks (serial calls order w) !! k =
    Some (fold_left apply_call (calls_on k calls order) t0).
Proof.
  unfold serial, calls_on. revert w t0.
  induction order as [|i order IH]; intros w t0 Hwf Hk; simpl; [done|].
  destruct (calls !! i) as [c|] eqn:Hc; simpl; [|by apply IH].
  destruct (run_call_task c w Hwf) as [Hwf' Ht'].
  rewrite (IH _ _ Hwf' (Ht' _ _ Hk)).
  by case_bool_decide.
Qed.

Lemma apply_calls_artifacts (cs : list Call) (t0 : Task) :
  default [] (t_artifacts (fold_left apply_call cs t0)) =
  default [] (t_artifacts t0) ++ artifacts_of cs.
Proof.
  unfold artifacts_of. revert t0.
  induction cs as [|c cs IH]; intros t0; simpl; [by rewrite app_nil_r|].
  rewrite IH. unfold apply_call at 1. simpl.
  destruct (c_artifacts c); simpl; [by rewrite app_assoc|done].
Qed.

(** The last call on a task decides its status, and its artifacts are the
    last ones of the list. *)
Lemma apply_calls_last (cs : list Call) (c : Call) (t0 : Task) :
  t_status (fold_left apply_call (cs ++ [c]) t0) = c_status c /\
  default [] (t_artifacts (fold_left apply_call (cs ++ [c]) t0)) =
    default [] (t_artifacts (fold_left apply_call cs t0)) ++ default [] (c_artifacts c).
Proof.
  rewrite fold_left_app. simpl. split; [done|].
  destruct (c_artifacts c); simpl; [done|by rewrite app_nil_r].
Qed.

Lemma step_world (i : nat) (cfg : Config) :
  world (step i cfg) <> world cfg ->
  exists c pc, threads cfg !! i = Some (c, pc) /\ in_body pc = true.
Proof.
  unfold step. destruct (threads cfg !! i) as [[c pc]|]; [|done].
  destruct pc; try (by eauto); try done.
  by destruct (locked cfg).
Qed.

(** *** Calls finish *)

Lemma continue_remaining (m : M Pc) (w : World) (n : nat) :
  1 <= n ->
  (forall pc w', m w = (Ok pc, w') -> remaining pc <= n) ->
  remaining (fst (continue m w)) <= n.
Proof.
  intros Hn H. unfold continue. destruct (m w) as [[pc|e] w'] eqn:E; [|done].
  by apply (H pc w').
Qed.

Lemma body_step_remaining (c : Call) (pc : Pc) (w : World) :
  in_body pc = true -> (forall r, pc <> AtRelease r) ->
  remaining (fst (body_step c (pc, w))) < remaining pc.
Proof.
  intros Hb Hr. unfold body_step. simpl.
  destruct pc; try done; try (by destruct (Hr r));
    simpl; apply Nat.lt_succ_r; (apply continue_remaining; [lia|]); intros pc w'.
  - unfold try_except, bind, tasks_getitem, ret, logger, raise.
    destruct (tasks w !! c_task_id c); simpl; [by intros [= <- _]|done].
  - unfold bind, tasks_getitem, task_write, ret.
    destruct (tasks w !! c_task_id c); simpl; [by intros [= <- _]|done].
  - unfold bind, task_messages_append, ret.
    destruct (ts_message (c_status c)); simpl; [|by intros [= <- _]].
    destruct (task_messages w !! c_task_id c); simpl; [by intros [= <- _]|done].
  - unfold bind, tasks_getitem, task_write, ret.
    destruct (c_artifacts c); simpl; [|by intros [= <- _]].
    destruct (tasks w !! c_task_id c); simpl; [by intros [= <- _]|done].
  - unfold bind, tasks_getitem, ret.
    destruct (tasks w !! c_task_id c); simpl; [by intros [= <- _]|done].
Qed.

Lemma step_body (i : nat) (cfg : Config) (c : Call) (pc : Pc) :
  threads cfg !! i = Some (c, pc) ->
  in_body pc = true -> (forall r, pc <> AtRelease r) ->
  step i cfg =
    mkConfig (snd (body_step c (pc, world cfg))) (locked cfg)
      (<[i := (c, fst (body_step c (pc, world cfg)))]> (threads cfg)).
Proof.
  intros Hi Hb Hr. unfold step. rewrite Hi.
  destruct pc; try done. by destruct (Hr r).
Qed.

(** A call that is not waiting for a held lock gets closer to its end with
    each of its steps. *)
Lemma step_remaining (i : nat) (cfg : Config) (c : Call) (pc : Pc) :
  threads cfg !! i = Some (c, pc) ->
  (pc = AtAcquire -> locked cfg = false) ->
  (exists r, pc = Finished r) \/
  exists pc', threads (step i cfg) !! i = Some (c, pc') /\
              pc' <> AtAcquire /\ remaining pc' < remaining pc.
Proof.
  intros Hi Hl. assert (i < length (threads cfg)) as Hlt by (by eapply lookup_lt_Some).
  destruct (in_body pc) eqn:Hb.
  - right.
    assert ((exists r, pc = AtRelease r) \/ forall r, pc <> AtRelease r) as [[r ->]|Hr']
      by (destruct pc; eauto).
    + unfold step. rewrite Hi. eexists. cbn [threads].
      rewrite list_lookup_insert_eq by done.
      split; [reflexivity|]. split; [done|simpl; lia].
    + rewrite (step_body _ _ _ _ Hi Hb Hr'). eexists. cbn [threads].
      rewrite list_lookup_insert_eq by done.
      split; [reflexivity|]. split; [|by apply body_step_remaining].
      intros E. pose proof (body_step_in_body c (pc, world cfg) Hb) as Hb'.
      by rewrite E in Hb'.
  - destruct pc; try done; [right|left; eauto].
    unfold step. rewrite Hi, Hl by done. eexists. cbn [threads].
    rewrite list_lookup_insert_eq by done.
    split; [reflexivity|]. split; [done|simpl; lia].
Qed.

(** Run alone for seven steps, a call that can enter finishes. *)
Lemma call_finishes (i : nat) (c : Call) (n : nat) (cfg : Config) (pc : Pc) :
  threads cfg !! i = Some (c, pc) ->
  (pc = AtAcquire -> locked cfg = false) ->
  remaining pc <= n ->
  exists r, threads (run (repeat i n) cfg) !! i = Some (c, Finished r).
Proof.
  revert cfg pc. induction n as [|n IH]; intros cfg pc Hi Hl Hn.
  - destruct pc; simpl in Hn; try lia. simpl. eauto.
  - simpl. destruct (step_remaining i cfg c pc Hi Hl) as [[r ->]|(pc' & Hi' & Hne & Hlt)].
    + apply (IH _ (Finished r)); [|done|simpl; lia].
      unfold step. by rewrite Hi.
    + apply (IH _ pc'); [done|done|lia].
Qed.

(** C9: the lock serialises [_update_store].  In every state that any
    schedule of any calls can reach: a call inside the body holds the lock
    and is the only one inside, and the lock is held by such a call only; a
    step that changes the store is a step of
    that call; and whenever the lock is free the store is the one left by
    the finished calls run whole, one after the other, in the order they
    held the lock, each with the result it has in that serial run.  So, in
    a well-formed store, each task then has the status of the last finished
    call on it together with that call's artifacts, and its artifact list
    is the old one followed by the artifacts of the finished calls on that
    task only. *)
Theorem concurrent_updates_serialize
    (w0 : World) (calls : list Call) (schedule : list nat) :
  let cfg := run schedule (start w0 calls) in
  (forall i c pc,
     threads cfg !! i = Some (c, pc) -> in_body pc = true ->
     locked cfg = true /\
     forall j c' pc', threads cfg !! j = Some (c', pc') -> in_body pc' = true -> j = i) /\
  (locked cfg = true ->
   exists i c pc, threads cfg !! i = Some (c, pc) /\ in_body pc = true) /\
  (forall i,
     world (step i cfg) <> world cfg ->
     locked cfg = true /\
     exists c pc, threads cfg !! i = Some (c, pc) /\ in_body pc = true) /\
  (locked cfg = false ->
   exists order,
     NoDup order /\
     (forall i, i ∈ order <-> exists c r, threads cfg !! i = Some (c, Finished r)) /\
     world cfg = serial calls order w0 /\
     (forall i c r,
        threads cfg !! i = Some (c, Finished r) ->
        exists pre post,
          order = pre ++ i :: post /\ r = call_result c (serial calls pre w0)) /\
     (store_wf w0 ->
      forall k t0,
        tasks w0 !! k = Some t0 ->
        exists t,
          tasks (world cfg) !! k = Some t /\
          t = fold_left apply_call (calls_on k calls order) t0 /\
          default [] (t_artifacts t) =
            default [] (t_artifacts t0) ++ artifacts_of (calls_on k calls order))).
Proof.
  intros cfg. destruct (inv_run w0 calls schedule) as (order & hold & HI).
  fold cfg in HI. destruct HI as (Hnd & Hth & Hord & Hhold).
  assert (forall i c pc, threads cfg !! i = Some (c, pc) -> in_body pc = true ->
            exists k, hold = Some (i, k)) as Hin.
  { intros i c pc Hi Hb. destruct (Hth _ _ _ Hi) as [_ Hpc].
    destruct pc; try done; destruct Hpc as (_ & k & -> & _); eauto. }
  assert (forall i c pc, threads cfg !! i = Some (c, pc) -> in_body pc = true ->
            locked cfg = true) as Hlock.
  { intros i c pc Hi Hb. destruct (Hin _ _ _ Hi Hb) as [k ->]. by destruct Hhold. }
  split; [|split; [|split]].
  - intros i c pc Hi Hb. split; [by eapply Hlock|].
    intros j c' pc' Hj Hb'.
    destruct (Hin _ _ _ Hi Hb) as [k Hk]. destruct (Hin _ _ _ Hj Hb') as [k' Hk'].
    congruence.
  - intros Hl. destruct hold as [[j k]|]; [|destruct Hhold; congruence].
    destruct Hhold as (_ & c & _ & Hj & _).
    exists j, c. eexists. split; [exact Hj|]. apply body_after_in_body.
  - intros i Hw. destruct (step_world _ _ Hw) as (c & pc & Hi & Hb).
    split; [by eapply Hlock|eauto].
  - intros Hl. destruct hold as [[j k]|]; [destruct Hhold; congruence|].
    destruct Hhold as [_ Hw]. exists order. split; [done|].
    split; [|split; [done|split]].
    + intros i. split; [by apply Hord|].
      intros (c & r & Hi). destruct (Hth _ _ _ Hi) as (_ & pre & post & -> & _).
      rewrite elem_of_app, elem_of_cons. tauto.
    + intros i c r Hi. by destruct (Hth _ _ _ Hi) as [_ ?].
    + intros Hwf k t0 Hk. eexists. split; [|split; [reflexivity|]].
      * rewrite Hw. by apply serial_task.
      * apply apply_calls_artifacts.
Qed.

(** Two calls on two tasks under an interleaved schedule: both finish and
    each task holds its own artifact. *)
Example two_calls_interleaved :
  let cfg := run [1; 0; 1; 0; 1; 1; 0; 1; 1; 1; 0; 0; 0; 0; 0; 0; 0]
                 (start two_tasks [call_a; call_b]) in
  locked cfg = false /\
  t_artifacts <$> tasks (world cfg) !! "a" = Some (Some [mkArtifact [TextPart "for a"]]) /\
  t_artifacts <$> tasks (world cfg) !! "b" = Some (Some [mkArtifact [TextPart "for b"]]) /\
  t_status <$> tasks (world cfg) !! "a" = Some (mkTaskStatus COMPLETED None) /\
  t_status <$> tasks (world cfg) !! "b" = Some (mkTaskStatus FAILED None) /\
  Forall (fun th => in_body (snd th) = false /\ snd th <> AtAcquire) (threads cfg).
Proof.
  vm_compute. repeat split; repeat constructor; done.
Qed.

End Concurrent.

(** ** More on the executor's text handling *)

Section MoreStrings.

Import PyStr.

Lemma mem_char_app (c : ascii) (a b : string) :
  mem_char c (a +:+ b) = mem_char c a || mem_char c b.
Proof.
  induction a as [|x a IH]; simpl; [done|]. by rewrite IH, orb_assoc.
Qed.

Lemma mem_char_lstrip (c : ascii) (s : string) :
  mem_char c s = false -> mem_char c (lstrip s) = false.
Proof.
  destruct (lstrip_decomp s) as (ws & _ & E). intros H.
  rewrite E, mem_char_app in H. by apply orb_false_elim in H as [_ ?].
Qed.

Lemma mem_char_rstrip (c : ascii) (s : string) :
  mem_char c s = false -> mem_char c (rstrip s) = false.
Proof.
  destruct (rstrip_decomp s) as (ws & _ & E). intros H.
  rewrite E, mem_char_app in H. by apply orb_false_elim in H as [? _].
Qed.

Lemma split_char_no_sep (c : ascii) (s : string) :
  Forall (fun p => mem_char c p = false) (split_char c s).
Proof.
  induction s as [|a s IH]; simpl; [by repeat constructor|].
  destruct (Ascii.eqb a c) eqn:E; [by constructor|].
  destruct (split_char c s) as [|h t]; [by repeat constructor; simpl; rewrite E|].
  inversion IH; subst. constructor; [|done]. simpl. by rewrite E.
Qed.

Lemma head_space_lstrip (s : string) : head_space (lstrip s) = false.
Proof.
  induction s as [|c s IH]; simpl; [done|].
  destruct (isspace c) eqn:E; [done|]. simpl. done.
Qed.

Lemma head_space_rstrip (s : string) :
  head_space s = false -> head_space (rstrip s) = false.
Proof.
  destruct s as [|c s]; simpl; [done|]. intros H.
  destruct (rstrip s); simpl; by rewrite ?H.
Qed.

Lemma lstrip_fixed (s : string) : head_space s = false -> lstrip s = s.
Proof. destruct s as [|c s]; simpl; [done|]. by intros ->. Qed.

Lemma rstrip_idem (s : string) : rstrip (rstrip s) = rstrip s.
Proof.
  induction s as [|c s IH]; simpl; [done|].
  destruct (rstrip s) as [|d r] eqn:E.
  - destruct (isspace c) eqn:Hc; simpl; [done|]. by rewrite Hc.
  - simpl in *. by rewrite IH.
Qed.

(** Trimming twice is trimming once. *)
Lemma strip_idem (s : string) : strip (strip s) = strip s.
Proof.
  unfold strip at 1. rewrite lstrip_fixed.
  - unfold strip. apply rstrip_idem.
  - unfold strip. apply head_space_rstrip, head_space_lstrip.
Qed.

Lemma nonempty_trimmed_lines_source_lines (text : string) :
  Forall source_line (nonempty_trimmed_lines text).
Proof.
  unfold nonempty_trimmed_lines.
  pose proof (split_char_no_sep LF text) as H.
  induction H as [|l ls Hl _ IH]; simpl; [constructor|].
  destruct (truthy (strip l)) eqn:Ht; [|done].
  constructor; [|done]. split; [done|]. split; [apply strip_idem|].
  by apply mem_char_rstrip, mem_char_lstrip.
Qed.

(** *** The text before the marker *)

Lemma before_first_occurrence (sep s pre post : string) :
  sep <> "" -> FirstOccurrence sep s pre post -> NoOccurrence sep pre.
Proof.
  intros Hsep [E Hmin] a b Hpre.
  assert (String.length pre <= String.length a) as Hle.
  { apply (Hmin a (b +:+ sep +:+ post)).
    rewrite E, Hpre. by rewrite !append_assoc. }
  rewrite Hpre, !append_length in Hle.
  destruct sep; [done|]. simpl in Hle. lia.
Qed.

Lemma no_occurrence_strip (sep s : string) :
  NoOccurrence sep s -> NoOccurrence sep (strip s).
Proof.
  intros N a b E. unfold strip in E.
  destruct (lstrip_decomp s) as (ws1 & _ & E1).
  destruct (rstrip_decomp (lstrip s)) as (ws2 & _ & E2).
  apply (N (ws1 +:+ a) (b +:+ ws2)).
  rewrite E1 at 1. rewrite E2 at 1. rewrite E. by rewrite !append_assoc.
Qed.

Lemma split_once_no_occurrence (sep s : string) :
  NoOccurrence sep s -> split_once sep s = None.
Proof.
  intros N. destruct (split_once sep s) as [[a b]|] eqn:E; [|done].
  apply split_once_Some in E as [E _]. by destruct (N a b).
Qed.

(** *** Reading back a text that ends in a sources block *)

(** A match of [sep] cannot run over a character that [sep] lacks. *)
Lemma prefix_before_char (sep c t : string) (x : ascii) :
  mem_char x sep = false ->
  String.prefix sep (c +:+ String x t) = true -> String.prefix sep c = true.
Proof.
  revert sep. induction c as [|b c IH]; intros [|a sep]; simpl; try done.
  - destruct (Ascii.ascii_dec a x) as [->|Hne]; [|done].
    by rewrite Ascii.eqb_refl.
  - intros Hm. destruct (Ascii.ascii_dec a b) as [->|Hne]; [|done].
    apply IH. by apply orb_false_elim in Hm as [_ ?].
Qed.

#[local] Arguments String.prefix : simpl never.

Lemma split_once_past_char (sep c t : string) (x : ascii) :
  mem_char x sep = false -> sep <> "" ->
  split_once sep c = None ->
  split_once sep (c +:+ String x t) =
    match split_once sep t with
    | Some (a, b) => Some (c +:+ String x a, b)
    | None => None
    end.
Proof.
  intros Hm Hsep. induction c as [|b c IH]; intros Hc.
  - change ("" +:+ String x t) with (String x t).
    change (split_once sep (String x t)) with
      (if String.prefix sep (String x t) then Some ("", drop (String.length sep) (String x t))
       else match split_once sep t with
            | Some (a, b) => Some (String x a, b)
            | None => None
            end).
    destruct (String.prefix sep (String x t)) eqn:P; [|done].
    apply prefix_spec in P as [r Hr]. destruct sep as [|a sep]; [done|].
    simpl in Hr, Hm. injection Hr as <- _. by rewrite Ascii.eqb_refl in Hm.
  - change (split_once sep (String b c)) with
      (if String.prefix sep (String b c) then Some ("", drop (String.length sep) (String b c))
       else match split_once sep c with
            | Some (a, b') => Some (String b a, b')
            | None => None
            end) in Hc.
    destruct (String.prefix sep (String b c)) eqn:P; [done|].
    destruct (split_once sep c) as [[a' b']|] eqn:Ec; [done|].
    change (split_once sep (String b c +:+ String x t)) with
      (if String.prefix sep (String b c +:+ String x t)
       then Some ("", drop (String.length sep) (String b c +:+ String x t))
       else match split_once sep (c +:+ String x t) with
            | Some (a, b') => Some (String b a, b')
            | None => None
            end).
    destruct (String.prefix sep (String b c +:+ String x t)) eqn:P'.
    + apply prefix_before_char in P'; [congruence|done].
    + rewrite (IH eq_refl). by destruct (split_once sep t) as [[a b']|].
Qed.

Lemma split_once_at_start (sep rest : string) :
  split_once sep (sep +:+ rest) = Some ("", rest).
Proof.
  assert (String.prefix sep (sep +:+ rest) = true) as P by (apply prefix_spec; eauto).
  destruct (sep +:+ rest) as [|c s] eqn:E.
  - destruct sep; [|done]. simpl in E. by subst rest.
  - simpl. rewrite P. f_equal. f_equal. rewrite <- E. apply drop_append.
Qed.

Lemma split_char_free (c : ascii) (s : string) :
  mem_char c s = false -> split_char c s = [s].
Proof.
  induction s as [|a s IH]; simpl; [done|].
  intros [Ha Hs]%orb_false_elim. by rewrite Ha, (IH Hs).
Qed.

Lemma split_char_at_sep (c : ascii) (x t : string) :
  mem_char c x = false ->
  split_char c (x +:+ String c t) = x :: split_char c t.
Proof.
  induction x as [|a x IH]; simpl.
  - intros _. by rewrite Ascii.eqb_refl.
  - intros [Ha Hx]%orb_false_elim. by rewrite Ha, (IH Hx).
Qed.

Lemma join_cons (sep x y : string) (l : list string) :
  join sep (x :: y :: l) = x +:+ sep +:+ join sep (y :: l).
Proof. reflexivity. Qed.

(** Joining lines and splitting them again gives the lines back. *)
Lemma split_char_join (l : list string) :
  l <> [] ->
  Forall (fun s => mem_char LF s = false) l ->
  split_char LF (join (String LF "") l) = l.
Proof.
  intros Hne H. induction H as [|x l Hx Hl IH]; [done|].
  destruct l as [|y l].
  - by apply split_char_free.
  - rewrite join_cons.
    change (x +:+ String LF "" +:+ join (String LF "") (y :: l))
      with (x +:+ String LF (join (String LF "") (y :: l))).
    rewrite split_char_at_sep by done. by rewrite IH.
Qed.

Lemma trimmed_source_lines (l : list string) :
  Forall source_line l -> List.filter truthy (map strip l) = l.
Proof.
  induction 1 as [|x l (Ht & Hs & _) _ IH]; simpl; [done|].
  by rewrite Hs, Ht, IH.
Qed.

Lemma nonempty_trimmed_lines_join (l : list string) :
  l <> [] -> Forall source_line l ->
  nonempty_trimmed_lines (String LF (join (String LF "") l)) = l.
Proof.
  intros Hne H. unfold nonempty_trimmed_lines.
  change (split_char LF (String LF (join (String LF "") l)))
    with ("" :: split_char LF (join (String LF "") l)).
  rewrite split_char_join; [|done|].
  - simpl. by apply trimmed_source_lines.
  - eapply Forall_impl; [exact H|]. by intros s (_ & _ & ?).
Qed.

(** What [extract_sources] returns: a content without the marker, trimmed
    when there are sources, and sources that are lines. *)
Lemma extract_sources_shape (raw content : string) (sources : list string) (w : World) :
  extract_sources raw w = (Ok (content, sources), w) ->
  NoOccurrence "Sources:" content /\
  Forall source_line sources /\
  (sources <> [] -> strip content = content).
Proof.
  intros E. destruct (occurrence_cases "Sources:" raw) as [(pre & post & F)|N].
  - rewrite (extract_sources_marker _ _ _ _ F) in E. injection E as <- <-.
    split; [|split].
    + apply no_occurrence_strip. by apply (before_first_occurrence _ raw _ post).
    + apply nonempty_trimmed_lines_source_lines.
    + intros _. apply strip_idem.
  - rewrite (extract_sources_no_marker _ _ N) in E. injection E as <- <-.
    split; [done|]. split; [constructor|done].
Qed.

Lemma artifact_text_first_occurrence (content : string) (sources : list string) :
  NoOccurrence "Sources:" content -> sources <> [] ->
  FirstOccurrence "Sources:" (artifact_text content sources)
    (content +:+ String LF (String LF ""))
    (String LF (join (String LF "") sources)).
Proof.
  intros N Hne. apply split_once_Some.
  destruct sources as [|s l]; [done|]. unfold artifact_text.
  set (rest := String LF (join (String LF "") (s :: l))).
  change (content +:+ String LF (String LF "Sources:") +:+ rest)
    with (content +:+ String LF (String LF ("Sources:" +:+ rest))).
  assert (split_once "Sources:" (String LF ("Sources:" +:+ rest)) =
            Some (String LF "", rest)) as H2.
  { change (String LF ("Sources:" +:+ rest))
      with ("" +:+ String LF ("Sources:" +:+ rest)).
    rewrite split_once_past_char by done. by rewrite split_once_at_start. }
  rewrite split_once_past_char; [|done|done|by apply split_once_no_occurrence].
  by rewrite H2.
Qed.

Lemma artifact_text_reads_back (content : string) (sources : list string) (w : World) :
  NoOccurrence "Sources:" content ->
  Forall source_line sources ->
  (sources <> [] -> strip content = content) ->
  extract_sources (artifact_text content sources) w = (Ok (content, sources), w).
Proof.
  intros N Hs Hc. destruct sources as [|s l].
  - by apply extract_sources_no_marker.
  - rewrite (extract_sources_marker _ _ _ _
               (artifact_text_first_occurrence content (s :: l) N ltac:(done))).
    rewrite strip_append_r by done. rewrite Hc by done.
    by rewrite nonempty_trimmed_lines_join.
Qed.

End MoreStrings.

(** ** More on the executor *)

Section MoreExecutor.

Import PyStr.

(** X1: every source that [invoke] returns is a line: not empty, without
    white space at either end, and without a line feed. *)
Theorem invoke_sources_are_lines
    (self : ResearchAgent) (query session_id raw : string) (w : World) :
  research_crew self query = Returns raw ->
  exists (r : ResearchResult) (w' : World) (sources : list string),
    invoke self query session_id w = (Ok r, w') /\
    rr_sources r = Some sources /\
    Forall source_line sources.
Proof.
  intros Hc. destruct (extract_sources_pure raw) as [[content sources] Hp].
  eexists. eexists. exists sources.
  split; [by apply (invoke_returns _ _ _ raw content sources)|].
  split; [done|]. by destruct (extract_sources_shape _ _ _ w (Hp w)) as (_ & ? & _).
Qed.

Lemma invoke_sources_are_lines_witness :
  exists (r : ResearchResult) (w' : World) (sources : list string),
    invoke example_agent "quantum computing" "session-1" (initial_world example_uuids) =
      (Ok r, w') /\
    rr_sources r = Some sources /\
    Forall source_line sources.
Proof.
  exact (invoke_sources_are_lines example_agent "quantum computing" "session-1"
           example_raw (initial_world example_uuids) eq_refl).
Defined.

(** X2: the content that [invoke] returns never contains the marker
    ["Sources:"], whether the raw output had it or not; so reading the
    content again finds no sources in it. *)
Theorem invoke_content_has_no_marker
    (self : ResearchAgent) (query session_id raw : string) (w : World) :
  research_crew self query = Returns raw ->
  exists (r : ResearchResult) (w' : World) (content : string),
    invoke self query session_id w = (Ok r, w') /\
    rr_content r = Some content /\
    NoOccurrence "Sources:" content /\
    forall w2, extract_sources content w2 = (Ok (content, []), w2).
Proof.
  intros Hc. destruct (extract_sources_pure raw) as [[content sources] Hp].
  eexists. eexists. exists content.
  split; [by apply (invoke_returns _ _ _ raw content sources)|].
  split; [done|].
  destruct (extract_sources_shape _ _ _ w (Hp w)) as (N & _ & _).
  split; [done|]. intros w2. by apply extract_sources_no_marker.
Qed.

Lemma invoke_content_has_no_marker_witness :
  exists (r : ResearchResult) (w' : World) (content : string),
    invoke example_agent "quantum computing" "session-1" (initial_world example_uuids) =
      (Ok r, w') /\
    rr_content r = Some content /\
    NoOccurrence "Sources:" content.
Proof.
  destruct (invoke_content_has_no_marker example_agent "quantum computing" "session-1"
              example_raw (initial_world example_uuids) eq_refl)
    as (r & w' & content & H & Hr & N & _).
  by exists r, w', content.
Defined.

(** X3: the text that [_invoke] builds from a result of [invoke] reads
    back: parsing it the way [invoke] parses a raw output returns the same
    content and the same sources. *)
Theorem artifact_text_round_trip
    (raw content : string) (sources : list string) (id : option string) (w : World) :
  extract_sources raw w = (Ok (content, sources), w) ->
  result_parts (mkResearchResult id (Some content) (Some sources) None) w =
    (Ok [TextPart (artifact_text content sources)], w) /\
  extract_sources (artifact_text content sources) w = (Ok (content, sources), w).
Proof.
  intros E. split; [destruct sources; reflexivity|].
  destruct (extract_sources_shape _ _ _ _ E) as (N & Hs & Hc).
  by apply artifact_text_reads_back.
Qed.

Lemma artifact_text_round_trip_witness :
  extract_sources
    (artifact_text "A B" ["http://x"; "http://y"]) (initial_world example_uuids) =
    (Ok ("A B", ["http://x"; "http://y"]), initial_world example_uuids).
Proof.
  exact (proj2 (artifact_text_round_trip example_raw "A B" ["http://x"; "http://y"]
                  None (initial_world example_uuids) eq_refl)).
Defined.

(** X4: [invoke] runs the pipeline exactly once, on the query, draws one
    identifier, which the result carries, and leaves both dicts of the task
    manager as they were; the session identifier changes nothing. *)
Theorem invoke_effects
    (self : ResearchAgent) (query session_id session_id' : string) (w : World) :
  exists (r : ResearchResult) (w' : World),
    invoke self query session_id w = (Ok r, w') /\
    invoke self query session_id' w = (Ok r, w') /\
    rr_id r = Some (uuid_source w (uuid_drawn w)) /\
    kickoffs w' = kickoffs w ++ [query] /\
    uuid_drawn w' = S (uuid_drawn w) /\
    tasks w' = tasks w /\
    task_messages w' = task_messages w.
Proof.
  destruct (research_crew self query) as [raw|e] eqn:Hc.
  - destruct (extract_sources_pure raw) as [[content sources] Hp].
    eexists. eexists.
    split; [by apply (invoke_returns _ _ _ raw content sources)|].
    split; [by apply (invoke_returns _ _ _ raw content sources)|]. done.
  - eexists. eexists.
    split; [by apply invoke_raises|]. split; [by apply invoke_raises|]. done.
Qed.

End MoreExecutor.

(** ** More on the task store *)

Section MoreStore.

(** Both dicts after any call of [_update_store], whatever its outcome. *)
Lemma update_store_maps
    (task_id : string) (status : TaskStatus) (artifacts : option (list Artifact))
    (w : World) :
  tasks (snd (_update_store task_id status artifacts w)) =
    match tasks w !! task_id with
    | None => tasks w
    | Some t =>
        <[task_id :=
            match ts_message status, task_messages w !! task_id with
            | Some _, None => with_status status t
            | _, _ => apply_call t (mkCall task_id status artifacts)
            end]> (tasks w)
    end /\
  task_messages (snd (_update_store task_id status artifacts w)) =
    match tasks w !! task_id, ts_message status, task_messages w !! task_id with
    | Some _, Some m, Some ms => <[task_id := ms ++ [m]]> (task_messages w)
    | _, _, _ => task_messages w
    end.
Proof.
  destruct (tasks w !! task_id) as [t|] eqn:Ht.
  - destruct (ts_message status) as [m|] eqn:Hm.
    + destruct (task_messages w !! task_id) as [ms|] eqn:Hms.
      * destruct (update_store_present _ status artifacts _ _ _ Ht Hms)
          as (w' & E & Et & Em & _).
        rewrite E. cbn [snd]. by rewrite Et, Em, Hm.
      * by rewrite (update_store_without_history _ _ artifacts _ _ _ Ht Hm Hms).
    + rewrite (update_store_found _ _ _ _ _ Ht), Hm.
      unfold bind, task_write, ret.
      destruct artifacts as [arts|]; simpl; rewrite ?insert_insert_eq;
        by destruct (task_messages w !! task_id).
  - by rewrite (update_store_absent _ _ _ _ Ht).
Qed.

(** X5: whatever its outcome, [_update_store] changes no other task: the
    records and histories of all other identifiers are as before, and
    neither dict gains or loses a key. *)
Theorem update_store_frame
    (task_id : string) (status : TaskStatus) (artifacts : option (list Artifact))
    (w : World) :
  dom (tasks (snd (_update_store task_id status artifacts w))) = dom (tasks w) /\
  dom (task_messages (snd (_update_store task_id status artifacts w))) =
    dom (task_messages w) /\
  forall k, k <> task_id ->
    tasks (snd (_update_store task_id status artifacts w)) !! k = tasks w !! k /\
    task_messages (snd (_update_store task_id status artifacts w)) !! k =
      task_messages w !! k.
Proof.
  destruct (update_store_maps task_id status artifacts w) as [-> ->].
  destruct (tasks w !! task_id) as [t|] eqn:Ht; [|done].
  split; [by apply dom_insert_lookup_L|].
  destruct (ts_message status) as [m|]; [|by split; [|intros k Hk; rewrite lookup_insert_ne]].
  destruct (task_messages w !! task_id) as [ms|] eqn:Hms.
  - split; [by apply dom_insert_lookup_L|].
    intros k Hk. by rewrite !lookup_insert_ne.
  - split; [done|]. intros k Hk. by rewrite lookup_insert_ne.
Qed.

(** X6: the store is append-only under [_update_store]: whatever the
    outcome, every task keeps its identifier and session, its artifact
    list only grows at the end, and every message history only grows at
    the end. *)
Theorem update_store_append_only
    (task_id : string) (status : TaskStatus) (artifacts : option (list Artifact))
    (w : World) :
  (forall k t, tasks w !! k = Some t ->
     exists t', tasks (snd (_update_store task_id status artifacts w)) !! k = Some t' /\
       t_id t' = t_id t /\ t_sessionId t' = t_sessionId t /\
       default [] (t_artifacts t) `prefix_of` default [] (t_artifacts t')) /\
  (forall k ms, task_messages w !! k = Some ms ->
     exists ms', task_messages (snd (_update_store task_id status artifacts w)) !! k
                   = Some ms' /\
       ms `prefix_of` ms').
Proof.
  destruct (update_store_maps task_id status artifacts w) as [-> ->]. split.
  - intros k t Hk. destruct (tasks w !! task_id) as [t0|] eqn:Ht; [|eauto].
    destruct (decide (k = task_id)) as [->|Hne]; [|rewrite lookup_insert_ne by done; eauto].
    rewrite lookup_insert_eq. assert (t0 = t) as -> by congruence.
    eexists. split; [reflexivity|].
    destruct (ts_message status) as [m|]; [destruct (task_messages w !! task_id)|];
      simpl; (split; [done|]); (split; [done|]);
      destruct artifacts as [arts|]; simpl; try done; by apply prefix_app_r.
  - intros k ms Hk.
    destruct (tasks w !! task_id) as [t0|]; [|eauto].
    destruct (ts_message status) as [m|]; [|eauto].
    destruct (task_messages w !! task_id) as [ms0|] eqn:Hms; [|eauto].
    destruct (decide (k = task_id)) as [->|Hne]; [|rewrite lookup_insert_ne by done; eauto].
    rewrite lookup_insert_eq. assert (ms0 = ms) as -> by congruence.
    eexists. split; [reflexivity|]. by apply prefix_app_r.
Qed.

Lemma update_store_other
    (task_id k : string) (status : TaskStatus) (artifacts : option (list Artifact))
    (w : World) :
  k <> task_id ->
  tasks (snd (_update_store task_id status artifacts w)) !! k = tasks w !! k /\
  task_messages (snd (_update_store task_id status artifacts w)) !! k =
    task_messages w !! k.
Proof.
  intros Hk. destruct (update_store_maps task_id status artifacts w) as [-> ->].
  destruct (tasks w !! task_id) as [t|]; [|done].
  rewrite lookup_insert_ne by done. split; [done|].
  destruct (ts_message status) as [m|]; [|done].
  destruct (task_messages w !! task_id) as [ms|]; [|done].
  by rewrite lookup_insert_ne.
Qed.

(** What a call returns is decided by the entries of its own task. *)
Lemma update_store_result
    (task_id : string) (status : TaskStatus) (artifacts : option (list Artifact))
    (w : World) :
  fst (_update_store task_id status artifacts w) =
    match tasks w !! task_id with
    | None => Raise (Exc ValueError ("Task " +:+ task_id +:+ " not found"))
    | Some t =>
        match ts_message status, task_messages w !! task_id with
        | Some _, None => Raise (Exc KeyError task_id)
        | _, _ => Ok (apply_call t (mkCall task_id status artifacts))
        end
    end.
Proof.
  destruct (tasks w !! task_id) as [t|] eqn:Ht.
  - destruct (ts_message status) as [m|] eqn:Hm.
    + destruct (task_messages w !! task_id) as [ms|] eqn:Hms.
      * destruct (update_store_present _ status artifacts _ _ _ Ht Hms)
          as (w' & E & _). by rewrite E.
      * by rewrite (update_store_without_history _ _ artifacts _ _ _ Ht Hm Hms).
    + rewrite (update_store_found _ _ _ _ _ Ht), Hm.
      unfold bind, task_write, ret.
      destruct artifacts as [arts|]; simpl; by destruct (task_messages w !! task_id).
  - by rewrite (update_store_absent _ _ _ _ Ht).
Qed.

(** X7: two calls of [_update_store] on different tasks commute: run in
    either order they leave the same two dicts, and each returns what it
    returns when run first. *)
Theorem updates_on_different_tasks_commute
    (id1 id2 : string) (st1 st2 : TaskStatus) (a1 a2 : option (list Artifact))
    (w : World) :
  id1 <> id2 ->
  tasks (snd (_update_store id2 st2 a2 (snd (_update_store id1 st1 a1 w)))) =
    tasks (snd (_update_store id1 st1 a1 (snd (_update_store id2 st2 a2 w)))) /\
  task_messages (snd (_update_store id2 st2 a2 (snd (_update_store id1 st1 a1 w)))) =
    task_messages (snd (_update_store id1 st1 a1 (snd (_update_store id2 st2 a2 w)))) /\
  fst (_update_store id2 st2 a2 (snd (_update_store id1 st1 a1 w))) =
    fst (_update_store id2 st2 a2 w) /\
  fst (_update_store id1 st1 a1 (snd (_update_store id2 st2 a2 w))) =
    fst (_update_store id1 st1 a1 w).
Proof.
  intros Hne.
  destruct (update_store_other id1 id2 st1 a1 w ltac:(done)) as [Ht12 Hm12].
  destruct (update_store_other id2 id1 st2 a2 w Hne) as [Ht21 Hm21].
  split; [|split; [|split]].
  - destruct (update_store_maps id2 st2 a2 (snd (_update_store id1 st1 a1 w))) as [-> _].
    destruct (update_store_maps id1 st1 a1 (snd (_update_store id2 st2 a2 w))) as [-> _].
    rewrite Ht12, Hm12, Ht21, Hm21.
    destruct (update_store_maps id1 st1 a1 w) as [-> _].
    destruct (update_store_maps id2 st2 a2 w) as [-> _].
    destruct (tasks w !! id1) as [t1|]; destruct (tasks w !! id2) as [t2|]; try done.
    by apply insert_insert_ne.
  - destruct (update_store_maps id2 st2 a2 (snd (_update_store id1 st1 a1 w))) as [_ ->].
    destruct (update_store_maps id1 st1 a1 (snd (_update_store id2 st2 a2 w))) as [_ ->].
    rewrite Ht12, Hm12, Ht21, Hm21.
    destruct (update_store_maps id1 st1 a1 w) as [_ ->].
    destruct (update_store_maps id2 st2 a2 w) as [_ ->].
    destruct (tasks w !! id1) as [t1|]; destruct (tasks w !! id2) as [t2|];
      destruct (ts_message st1) as [m1|]; destruct (ts_message st2) as [m2|];
      destruct (task_messages w !! id1) as [ms1|];
      destruct (task_messages w !! id2) as [ms2|]; try done.
    by apply insert_insert_ne.
  - by rewrite !update_store_result, Ht12, Hm12.
  - by rewrite !update_store_result, Ht21, Hm21.
Qed.

Lemma updates_on_different_tasks_commute_witness :
  tasks (snd (_update_store "b" (mkTaskStatus FAILED None) None
                (snd (_update_store "a" (mkTaskStatus COMPLETED None) None two_tasks)))) =
  tasks (snd (_update_store "a" (mkTaskStatus COMPLETED None) None
                (snd (_update_store "b" (mkTaskStatus FAILED None) None two_tasks)))).
Proof.
  exact (proj1 (updates_on_different_tasks_commute "a" "b"
                  (mkTaskStatus COMPLETED None) (mkTaskStatus FAILED None) None None
                  two_tasks ltac:(done))).
Defined.

End MoreStore.

(** ** More on the request handlers *)

Section MoreHandlers.

(** [_invoke] when the pipeline returns on the query of the request. *)
Lemma _invoke_pipeline_returns
    (self : ResearchTaskManager) (request : SendTaskRequest) (w : World)
    (text : string) (rest : list Part) (t : Task)
    (raw content : string) (sources : list string) :
  msg_parts (tsp_message (req_params request)) = TextPart text :: rest ->
  tasks w !! tsp_id (req_params request) = Some t ->
  research_crew (agent self) text = Returns raw ->
  (forall w', extract_sources raw w' = (Ok (content, sources), w')) ->
  let task :=
    mkTask (t_id t) (t_sessionId t) (mkTaskStatus COMPLETED None)
      (Some (default [] (t_artifacts t) ++
             [mkArtifact [TextPart (artifact_text content sources)]])) in
  exists (w' : World),
    _invoke self request w = (Ok (mkResponse (req_id request) (Some task) None), w') /\
    tasks w' = <[tsp_id (req_params request) := task]> (tasks w) /\
    task_messages w' = task_messages w /\
    kickoffs w' = kickoffs w ++ [text].
Proof.
  intros Hparts Ht Hc Hp.
  pose proof (invoke_returns (agent self) text (tsp_sessionId (req_params request))
                raw content sources w Hc Hp) as Hi.
  set (r := mkResearchResult _ (Some content) (Some sources) None) in Hi.
  set (w1 := after_invoke _ _ w) in Hi.
  assert (result_parts r w1 = (Ok [TextPart (artifact_text content sources)], w1)) as Hr
    by (destruct sources; reflexivity).
  assert (tasks (add_log (Log INFO ("Research completed with ID: "
             +:+ default "None" (rr_id r)) []) w1)
          !! tsp_id (req_params request) = Some t) as Ht1 by done.
  unfold _invoke, _get_user_query. rewrite Hparts.
  unfold bind at 1. unfold ret at 1.
  unfold bind at 1, try_except. rewrite Hi.
  unfold bind at 1. rewrite Hr.
  unfold bind at 1, logger at 1.
  unfold bind at 1. rewrite (update_store_found _ _ _ _ _ Ht1).
  cbn [ts_message]. unfold bind, task_write, ret. cbn [fst snd].
  eexists. split; [reflexivity|]. cbn [tasks task_messages kickoffs set_tasks].
  by rewrite insert_insert_eq.
Qed.

(** [_invoke] on a text request whose task has no record. *)
Lemma _invoke_task_missing
    (self : ResearchTaskManager) (request : SendTaskRequest) (w : World)
    (text : string) (rest : list Part) :
  msg_parts (tsp_message (req_params request)) = TextPart text :: rest ->
  tasks w !! tsp_id (req_params request) = None ->
  exists (w' : World),
    _invoke self request w =
      (Raise (Exc ValueError ("Task " +:+ tsp_id (req_params request) +:+ " not found")),
       w') /\
    tasks w' = tasks w /\
    task_messages w' = task_messages w /\
    kickoffs w' = kickoffs w ++ [text].
Proof.
  intros Hparts Ht.
  assert (exists r w1 ps,
            invoke (agent self) text (tsp_sessionId (req_params request)) w = (Ok r, w1) /\
            result_parts r w1 = (Ok ps, w1) /\
            tasks w1 = tasks w /\ task_messages w1 = task_messages w /\
            kickoffs w1 = kickoffs w ++ [text]) as (r & w1 & ps & Hi & Hr & H1 & H2 & H3).
  { destruct (research_crew (agent self) text) as [raw|e] eqn:Hc.
    - destruct (extract_sources_pure raw) as [[content sources] Hp].
      eexists. eexists. exists [TextPart (artifact_text content sources)].
      split; [by apply (invoke_returns _ _ _ raw content sources)|].
      split; [destruct sources; reflexivity|done].
    - eexists. eexists. eexists.
      split; [by apply invoke_raises|]. split; [reflexivity|done]. }
  assert (tasks (add_log (Log INFO ("Research completed with ID: "
             +:+ default "None" (rr_id r)) []) w1)
          !! tsp_id (req_params request) = None) as Ht1.
  { cbn [tasks add_log]. by rewrite H1. }
  unfold _invoke, _get_user_query. rewrite Hparts.
  unfold bind at 1. unfold ret at 1.
  unfold bind at 1, try_except. rewrite Hi.
  unfold bind at 1. rewrite Hr.
  unfold bind at 1, logger at 1.
  unfold bind at 1. rewrite (update_store_absent _ _ _ _ Ht1).
  eexists. split; [reflexivity|]. done.
Qed.

(** X8: when the pipeline returns, [_invoke] completes the task with one
    more artifact, a single text part: the content, followed by a blank
    line, the heading ["Sources:"] and the sources one per line when there
    are any.  The pipeline was run once, on the text of the first part. *)
Theorem invoke_success_completes_task
    (self : ResearchTaskManager) (request : SendTaskRequest) (w : World)
    (text : string) (rest : list Part) (t : Task)
    (raw content : string) (sources : list string) :
  msg_parts (tsp_message (req_params request)) = TextPart text :: rest ->
  tasks w !! tsp_id (req_params request) = Some t ->
  research_crew (agent self) text = Returns raw ->
  extract_sources raw w = (Ok (content, sources), w) ->
  exists (task : Task) (w' : World),
    _invoke self request w = (Ok (mkResponse (req_id request) (Some task) None), w') /\
    t_status task = mkTaskStatus COMPLETED None /\
    t_artifacts task =
      Some (default [] (t_artifacts t) ++
            [mkArtifact [TextPart (artifact_text content sources)]]) /\
    tasks w' = <[tsp_id (req_params request) := task]> (tasks w) /\
    task_messages w' = task_messages w /\
    kickoffs w' = kickoffs w ++ [text].
Proof.
  intros Hparts Ht Hc He.
  destruct (extract_sources_pure raw) as [p Hp].
  assert (p = (content, sources)) as -> by (rewrite Hp in He; congruence).
  destruct (_invoke_pipeline_returns self request w text rest t raw content sources
              Hparts Ht Hc Hp) as (w' & H & Hrest).
  eexists. exists w'. split; [exact H|]. by simpl.
Qed.

Lemma invoke_success_completes_task_witness :
  exists (task : Task) (w' : World),
    _invoke (mkManager example_agent (fun _ => None)) example_request example_store =
      (Ok (mkResponse "req-1" (Some task) None), w') /\
    t_status task = mkTaskStatus COMPLETED None /\
    t_artifacts task =
      Some [mkArtifact [TextPart (artifact_text "A B" ["http://x"; "http://y"])]].
Proof.
  destruct (invoke_success_completes_task
              (mkManager example_agent (fun _ => None)) example_request example_store
              "quantum computing" [] example_task example_raw
              "A B" ["http://x"; "http://y"] eq_refl eq_refl eq_refl eq_refl)
    as (task & w' & H & Hs & Ha & _).
  by exists task, w'.
Defined.

(** X9: the outcomes of [_invoke].  It answers with the completed task, or
    raises [IndexError] for a message without parts, or [ValueError] for a
    first part that is not text, both before anything else is done, or
    [ValueError] "Task ... not found" when the task has no record, and then
    only after the pipeline was run.  It raises nothing else. *)
Theorem invoke_outcomes (self : ResearchTaskManager) (request : SendTaskRequest) (w : World) :
  (exists (task : Task) (w' : World),
     _invoke self request w = (Ok (mkResponse (req_id request) (Some task) None), w') /\
     t_status task = mkTaskStatus COMPLETED None /\
     is_Some (tasks w !! tsp_id (req_params request))) \/
  (msg_parts (tsp_message (req_params request)) = [] /\
   _invoke self request w = (Raise (Exc IndexError "list index out of range"), w)) \/
  (exists part rest,
     msg_parts (tsp_message (req_params request)) = part :: rest /\
     (forall text, part <> TextPart text) /\
     _invoke self request w =
       (Raise (Exc ValueError "Only text parts are supported"), w)) \/
  (exists text rest (w' : World),
     msg_parts (tsp_message (req_params request)) = TextPart text :: rest /\
     tasks w !! tsp_id (req_params request) = None /\
     _invoke self request w =
       (Raise (Exc ValueError ("Task " +:+ tsp_id (req_params request) +:+ " not found")),
        w') /\
     tasks w' = tasks w /\
     kickoffs w' = kickoffs w ++ [text]).
Proof.
  destruct (msg_parts (tsp_message (req_params request))) as [|part rest] eqn:Hparts.
  - right. left. split; [done|]. unfold _invoke, _get_user_query. by rewrite Hparts.
  - destruct part as [text|file|data].
    + destruct (tasks w !! tsp_id (req_params request)) as [t|] eqn:Ht.
      * left. destruct (research_crew (agent self) text) as [raw|e] eqn:Hc.
        -- destruct (extract_sources_pure raw) as [[content sources] Hp].
           destruct (_invoke_pipeline_returns self request w text rest t raw content
                       sources Hparts Ht Hc Hp) as (w' & H & _).
           eexists. exists w'. split; [exact H|]. split; [done|eauto].
        -- destruct (_invoke_pipeline_raises self request w text rest t e Hparts Ht Hc)
             as (w' & H & _).
           eexists. exists w'. split; [exact H|]. split; [done|eauto].
      * right. right. right.
        destruct (_invoke_task_missing self request w text rest Hparts Ht)
          as (w' & H & Htasks & _ & Hk).
        exists text, rest, w'. done.
    + right. right. left. exists (FilePart file), rest.
      split; [done|]. split; [done|].
      unfold _invoke, _get_user_query. by rewrite Hparts.
    + right. right. left. exists (DataPart data), rest.
      split; [done|]. split; [done|].
      unfold _invoke, _get_user_query. by rewrite Hparts.
Qed.

End MoreHandlers.

(** ** More on concurrent updates *)

Section MoreConcurrent.

Lemma run_app (s1 s2 : list nat) (cfg : Config) :
  run (s1 ++ s2) cfg = run s2 (run s1 cfg).
Proof. unfold run. apply fold_left_app. Qed.

Lemma step_other (i j : nat) (cfg : Config) :
  j <> i -> threads (step i cfg) !! j = threads cfg !! j.
Proof.
  intros Hne. unfold step. destruct (threads cfg !! i) as [[c pc]|]; [|done].
  destruct pc; cbn [threads]; rewrite ?list_lookup_insert_ne by done; try done.
  destruct (locked cfg); cbn [threads]; by rewrite ?list_lookup_insert_ne by done.
Qed.

Lemma step_length (i : nat) (cfg : Config) :
  length (threads (step i cfg)) = length (threads cfg).
Proof.
  unfold step. destruct (threads cfg !! i) as [[c pc]|]; [|done].
  destruct pc; cbn [threads]; rewrite ?length_insert; try done.
  destruct (locked cfg); cbn [threads]; by rewrite ?length_insert.
Qed.

Lemma run_length (s : list nat) (cfg : Config) :
  length (threads (run s cfg)) = length (threads cfg).
Proof.
  unfold run. revert cfg. induction s as [|i s IH]; intros cfg; simpl; [done|].
  by rewrite IH, step_length.
Qed.

Lemma run_repeat_other (i j n : nat) (cfg : Config) :
  j <> i -> threads (run (repeat i n) cfg) !! j = threads cfg !! j.
Proof.
  intros Hne. unfold run. revert cfg. induction n as [|n IH]; intros cfg; simpl; [done|].
  by rewrite IH, step_other.
Qed.

Lemma step_finished (i j : nat) (cfg : Config) (c : Call) (r : Result Task) :
  threads cfg !! j = Some (c, Finished r) ->
  threads (step i cfg) !! j = Some (c, Finished r).
Proof.
  intros Hj. destruct (decide (j = i)) as [->|Hne].
  - unfold step. by rewrite Hj.
  - by rewrite step_other.
Qed.

(** A finished call stays finished. *)
Lemma run_finished (s : list nat) (j : nat) (cfg : Config) (c : Call) (r : Result Task) :
  threads cfg !! j = Some (c, Finished r) ->
  threads (run s cfg) !! j = Some (c, Finished r).
Proof.
  unfold run. revert cfg. induction s as [|i s IH]; intros cfg Hj; simpl; [done|].
  by apply IH, step_finished.
Qed.

Lemma inv_run_from (w0 : World) (calls : list Call) (s : list nat) (cfg : Config)
    (order : list nat) (hold : option (nat * nat)) :
  Inv w0 calls cfg order hold ->
  exists order' hold', Inv w0 calls (run s cfg) order' hold'.
Proof.
  unfold run. revert cfg order hold.
  induction s as [|i s IH]; intros cfg order hold HI; simpl; [eauto|].
  destruct (inv_step _ _ _ _ _ i HI) as (order' & hold' & HI'). eauto.
Qed.

(** With no call inside the body the lock is free. *)
Lemma inv_quiet (w0 : World) (calls : list Call) (cfg : Config)
    (order : list nat) (hold : option (nat * nat)) :
  Inv w0 calls cfg order hold -> quiet cfg -> hold = None.
Proof.
  intros (_ & _ & _ & Hhold) Hq. destruct hold as [[j k]|]; [|done].
  destruct Hhold as (_ & c & _ & Hj & _). apply Hq in Hj.
  by rewrite body_after_in_body in Hj.
Qed.

Lemma finish_one (w0 : World) (calls : list Call) (cfg : Config)
    (order : list nat) (hold : option (nat * nat)) (i : nat) :
  Inv w0 calls cfg order hold -> quiet cfg ->
  quiet (run (repeat i 7) cfg) /\
  forall c pc, threads (run (repeat i 7) cfg) !! i = Some (c, pc) ->
               exists r, pc = Finished r.
Proof.
  intros HI Hq.
  assert (locked cfg = false) as Hl.
  { rewrite (inv_quiet _ _ _ _ _ HI Hq) in HI. by destruct HI as (_ & _ & _ & ? & _). }
  assert (forall c pc, threads (run (repeat i 7) cfg) !! i = Some (c, pc) ->
                       exists r, pc = Finished r) as Hfin.
  { intros c pc Hi.
    destruct (threads cfg !! i) as [[c0 pc0]|] eqn:Hi0.
    - destruct (call_finishes i c0 7 cfg pc0 Hi0 (fun _ => Hl)) as [r Hr].
      + pose proof (Hq _ _ _ Hi0). destruct pc0; simpl in *; try done; lia.
      + rewrite Hr in Hi. injection Hi as _ <-. eauto.
    - apply lookup_lt_Some in Hi. rewrite run_length in Hi.
      apply lookup_ge_None in Hi0. lia. }
  split; [|done]. intros j c pc Hj.
  destruct (decide (j = i)) as [->|Hne].
  - by destruct (Hfin _ _ Hj) as [r ->].
  - rewrite run_repeat_other in Hj by done. by apply (Hq _ _ _ Hj).
Qed.

Lemma finish_holder (w0 : World) (calls : list Call) (cfg : Config)
    (order : list nat) (j k : nat) :
  Inv w0 calls cfg order (Some (j, k)) -> quiet (run (repeat j 7) cfg).
Proof.
  intros (_ & Hth & _ & (_ & c & _ & Hj & _)) i c' pc Hi.
  destruct (decide (i = j)) as [->|Hne].
  - destruct (call_finishes j c 7 cfg _ Hj) as [r Hr].
    + intros E. pose proof (body_after_in_body c k (serial calls order w0)) as Hb.
      by rewrite E in Hb.
    + pose proof (body_after_in_body c k (serial calls order w0)) as Hb.
      destruct (fst (body_after c k (serial calls order w0))); simpl in *; try done; lia.
    + rewrite Hr in Hi. by injection Hi as _ <-.
  - rewrite run_repeat_other in Hi by done.
    destruct (Hth _ _ _ Hi) as [_ Hpc].
    destruct pc; try done; destruct Hpc as (_ & k' & [= -> _] & _); done.
Qed.

Lemma drain_list_finishes (w0 : World) (calls : list Call) (l : list nat) (cfg : Config)
    (order : list nat) (hold : option (nat * nat)) :
  Inv w0 calls cfg order hold -> quiet cfg ->
  quiet (run (concat (map (fun i => repeat i 7) l)) cfg) /\
  forall i c pc,
    i ∈ l ->
    threads (run (concat (map (fun i => repeat i 7) l)) cfg) !! i = Some (c, pc) ->
    exists r, pc = Finished r.
Proof.
  revert cfg order hold.
  induction l as [|i l IH]; intros cfg order hold HI Hq; cbn [map concat].
  - split; [done|]. by intros i c pc ?%elem_of_nil.
  - rewrite run_app.
    destruct (finish_one _ _ _ _ _ i HI Hq) as [Hq1 Hf1].
    destruct (inv_run_from _ _ (repeat i 7) _ _ _ HI) as (order1 & hold1 & HI1).
    destruct (IH _ _ _ HI1 Hq1) as [Hq' Hf'].
    split; [done|]. intros j c pc [->|Hin]%elem_of_cons Hj; [|by eapply Hf'].
    assert (is_Some (threads (run (repeat i 7) cfg) !! i)) as [[c1 pc1] H1].
    { apply lookup_lt_is_Some. apply lookup_lt_Some in Hj.
      by rewrite run_length in Hj. }
    destruct (Hf1 _ _ H1) as [r ->].
    rewrite (run_finished _ _ _ _ _ H1) in Hj. injection Hj as _ <-. eauto.
Qed.

(** X10: the lock never blocks for good.  Whatever has been scheduled so
    far, the schedule can be continued so that every call finishes; the
    lock is then free and the store is the one left by all the calls run
    whole, one after the other, in some order. *)
Theorem every_schedule_can_finish
    (w0 : World) (calls : list Call) (schedule : list nat) :
  exists rest,
    let cfg := run (schedule ++ rest) (start w0 calls) in
    all_finished cfg /\
    locked cfg = false /\
    exists order,
      Permutation order (seq 0 (length calls)) /\
      world cfg = serial calls order w0.
Proof.
  destruct (inv_run w0 calls schedule) as (order0 & hold0 & HI0).
  set (cfg0 := run schedule (start w0 calls)) in *.
  set (first := match hold0 with Some (j, _) => repeat j 7 | None => [] end).
  assert (quiet (run first cfg0)) as Hq1.
  { unfold first. destruct hold0 as [[j k]|]; [by eapply finish_holder|].
    intros i c pc Hi. destruct HI0 as (_ & Hth & _). destruct (Hth _ _ _ Hi) as [_ Hpc].
    destruct pc; try done; by destruct Hpc as (_ & k & ? & _). }
  destruct (inv_run_from _ _ first _ _ _ HI0) as (order1 & hold1 & HI1).
  destruct (drain_list_finishes _ _ (seq 0 (length calls)) _ _ _ HI1 Hq1) as [Hq Hfin].
  destruct (inv_run_from _ _ (drain (length calls)) _ _ _ HI1) as (order & hold & HI).
  exists (first ++ drain (length calls)). rewrite !run_app. fold cfg0.
  set (cfg := run (drain (length calls)) (run first cfg0)) in *.
  assert (length (threads cfg) = length calls) as Hlen.
  { unfold cfg, cfg0. rewrite !run_length. unfold start. simpl. apply length_fmap. }
  assert (all_finished cfg) as Hall.
  { intros i c pc Hi. apply (Hfin i c pc); [|done].
    apply elem_of_seq. apply lookup_lt_Some in Hi. lia. }
  cbv zeta. split; [done|].
  rewrite (inv_quiet _ _ _ _ _ HI Hq) in HI.
  destruct HI as (Hnd & Hth & Hord & Hl & Hw).
  split; [done|]. exists order. split; [|done].
  apply NoDup_Permutation; [done|apply NoDup_seq|].
  intros i. rewrite elem_of_seq. split.
  - intros Hin. destruct (Hord _ Hin) as (c & r & Hi).
    apply lookup_lt_Some in Hi. lia.
  - intros [_ Hlt]. simpl in Hlt. rewrite <- Hlen in Hlt.
    apply lookup_lt_is_Some in Hlt as [[c pc] Hi].
    destruct (Hall _ _ _ Hi) as [r ->].
    destruct (Hth _ _ _ Hi) as (_ & pre & post & -> & _).
    rewrite elem_of_app, elem_of_cons. tauto.
Qed.

End MoreConcurrent.

(** ** More on start-up *)

Section MoreStartup.


End MoreStartup.
